(** * go-dht: DHT22 / AM2302 / DHT11 driver, shallow embedding and properties

    The development follows the Go package [dht]: the value converter
    [bitsToValues], the pulse decoder inside [readBits], the single-shot
    [Read], [ReadRetry] and the background loop [ReadBackground].

    Conventions.
    - A Go [int] is a 64-bit two's complement integer, held in [Z] and wrapped
      with [wrapInt]; a [uint8] is wrapped with [u8]; a [time.Duration] is an
      [int64] count of nanoseconds, wrapped with [wrap64].
    - A [float64] is a binary64 primitive float.
    - A function that returns [(T, error)] returns a [Result T]; a run that
      hits a runtime panic (index out of range, closing a closed channel) is
      [Panic], anything else is [Ret].
    - The pin, the clock and the goroutine that closes [stop] are the
      environment: they live in [World] and in the arguments of the loop. *)

From Stdlib Require Import ZArith Floats Uint63.
From stdpp Require Import base list strings.

Open Scope Z_scope.

(** ** Machine integers *)

Definition wrap64 (z : Z) : Z := (z + 2 ^ 63) `mod` 2 ^ 64 - 2 ^ 63.

(** [int] on the 64-bit targets. *)
Definition wrapInt (z : Z) : Z := wrap64 z.

(** [uint8(x)] and arithmetic on [uint8]. *)
Definition u8 (z : Z) : Z := z `mod` 256.

(** [float64(x)] for an [int] x: exact below 2^53 in magnitude and rounded to
    nearest below 2^63. The converter applies it after the range checks only,
    to integers between -400 and 1000. *)
Definition float64_of_int (z : Z) : float :=
  if z <? 0 then PrimFloat.opp (PrimFloat.of_uint63 (Uint63.of_Z (- z)))
  else PrimFloat.of_uint63 (Uint63.of_Z z).

(** ** Runs that may panic, and results that carry an [error] *)

Inductive Go (A : Type) : Type :=
| Ret (a : A)
| Panic.
Arguments Ret {A} a.
Arguments Panic {A}.

Definition go_bind {A B : Type} (m : Go A) (k : A → Go B) : Go B :=
  match m with
  | Ret a => k a
  | Panic => Panic
  end.

Notation "x ←! m ; k" := (go_bind m (fun x => k))
  (at level 20, m at level 100, k at level 200, right associativity,
   format "x  ←!  m ;  '/' k").
Notation "' p ←! m ; k" := (go_bind m (fun p => k))
  (at level 20, p pattern, m at level 100, k at level 200, right associativity,
   format "' p  ←!  m ;  '/' k").

(** [l[i]] for an [int] index: a panic outside [0 <= i < len(l)]. *)
Definition index {A : Type} (l : list A) (i : Z) : Go A :=
  if i <? 0 then Panic
  else match l !! Z.to_nat i with
       | Some a => Ret a
       | None => Panic
       end.

(** The errors the package builds with [fmt.Errorf], one constructor per
    format string, the formatted operand as argument. *)
Inductive Error : Type :=
| ErrPinOutLow (e : string)      (* "pin out low error: %v" *)
| ErrPinIn (e : string)          (* "pin in error: %v" *)
| ErrPinOutHigh (e : string)     (* "pin out high error: %v" *)
| ErrLowNotFound                 (* "missing some readings - low level not found" *)
| ErrNotHigh                     (* "missing some readings - level not high" *)
| ErrHighTooLong (d : Z)         (* "... high level duration too long: %v" *)
| ErrNotLow                      (* "missing some readings - level not low" *)
| ErrLowTooLong (d : Z)          (* "... low level duration too long: %v" *)
| ErrLowTooShort (d : Z)         (* "... low level duration too short: %v" *)
| ErrHumidity (v : Z)            (* "bad data - humidity: %v" *)
| ErrTemperature (v : Z)         (* "bad data - temperature: %v" *)
| ErrCheckSum.                   (* "bad data - check sum fail" *)

Inductive Result (T : Type) : Type :=
| Ok (v : T)
| Err (e : Error).
Arguments Ok {T} v.
Arguments Err {T} e.

(** ** The handle (globals.go) *)

(** [TemperatureUnit] is an [int]: [Celsius = iota = 0], [Fahrenheit = 1]. *)
Definition TemperatureUnit := Z.
Definition Celsius : TemperatureUnit := 0.
Definition Fahrenheit : TemperatureUnit := 1.

(** The [pin] field is the environment's, see [World]. *)
Record DHT : Type := mkDHT {
  temperatureUnit : TemperatureUnit;
  sensorType : string;
  numErrors : Z;
  lastRead : Z
}.

(** ** bitsToValues *)

(** What [Read] and [bitsToValues] return: [(humidity, temperature, err)]. *)
Record Values : Type := mkValues {
  humidity : float;
  temperature : float;
  err : option Error
}.

(** The named results before any assignment. *)
Definition zeroValues : Values := mkValues 0%float 0%float None.

(** The running state of the first two loops: the integer being built,
    [sum8] and [sumTotal]. *)
Record BitAcc : Type := mkBitAcc {
  accInt : Z;
  accSum8 : Z;
  accSumTotal : Z
}.

(** One iteration of [for i = 0; i < 16; i++] (flush at 7 and 15) or of
    [for i = 16; i < 32; i++] (flush at 23 and 31). *)
Definition bitStep (flushA flushB : Z) (bits : list Z) (st : Go BitAcc) (i : Z)
  : Go BitAcc :=
  a ←! st;
  b ←! index bits i;
  let v := wrapInt (wrapInt (Z.shiftl (accInt a) 1) + b) in
  let s := u8 (u8 (Z.shiftl (accSum8 a) 1) + u8 b) in
  if (i =? flushA) || (i =? flushB)
  then Ret (mkBitAcc v 0 (u8 (accSumTotal a + s)))
  else Ret (mkBitAcc v s (accSumTotal a)).

(** One iteration of [for i = 32; i < 40; i++]. *)
Definition checkSumStep (bits : list Z) (st : Go Z) (i : Z) : Go Z :=
  c ←! st;
  b ←! index bits i;
  Ret (u8 (u8 (Z.shiftl c 1) + u8 b)).

(** [for i = a; i < a + n; i++]: the values of [i]. *)
Fixpoint upto (a : Z) (n : nat) : list Z :=
  match n with
  | O => []
  | S n' => a :: upto (a + 1) n'
  end.

(** [if (temperatureInt & 0x8000) > 0 { temperatureInt |= ^0xffff }];
    the constant [^0xffff] is [-65536]. *)
Definition signExtend (t : Z) : Z :=
  if Z.land t 32768 >? 0 then Z.lor t (Z.lnot 65535) else t.

(** The part of [bitsToValues] after the three loops. *)
Definition valuesOf (dht : DHT) (humidityInt temperatureInt checkSum sumTotal : Z)
  : Values :=
  if negb (String.eqb (sensorType dht) "dht11") then
    if (humidityInt <? 0) || (humidityInt >? 1000) then
      mkValues 0 0 (Some (ErrHumidity humidityInt))
    else if (temperatureInt <? -400) || (temperatureInt >? 800) then
      mkValues 0 0 (Some (ErrTemperature temperatureInt))
    else
      mkValues
        (float64_of_int humidityInt / 10)%float
        (if temperatureUnit dht =? Celsius
         then (float64_of_int temperatureInt / 10)%float
         else (float64_of_int temperatureInt * 9 / 50 + 32)%float)
        (if negb (checkSum =? sumTotal) then Some ErrCheckSum else None)
  else
    if (humidityInt <? 0) || (humidityInt >? 100) then
      mkValues 0 0 (Some (ErrHumidity humidityInt))
    else if (temperatureInt <? 0) || (temperatureInt >? 50) then
      mkValues 0 0 (Some (ErrTemperature temperatureInt))
    else
      mkValues
        (float64_of_int humidityInt)
        (if temperatureUnit dht =? Celsius
         then float64_of_int temperatureInt
         else (float64_of_int temperatureInt * 9 / 5 + 32)%float)
        (if negb (checkSum =? sumTotal) then Some ErrCheckSum else None).

Definition bitsToValues (dht : DHT) (bits : list Z) : Go Values :=
  h ←! foldl (bitStep 7 15 bits) (Ret (mkBitAcc 0 0 0)) (upto 0 16);
  t ←! foldl (bitStep 23 31 bits)
         (Ret (mkBitAcc 0 (accSum8 h) (accSumTotal h))) (upto 16 16);
  c ←! foldl (checkSumStep bits) (Ret 0) (upto 32 8);
  Ret (valuesOf dht (accInt h) (signExtend (accInt t)) c (accSumTotal t)).

(** *** Frames

    A frame is the 40 bits of five bytes, most significant bit first. *)

(** The [n] low bits of [v], most significant first. *)
Fixpoint toBits (n : nat) (v : Z) : list Z :=
  match n with
  | O => []
  | S n' => toBits n' (v `div` 2) ++ [v `mod` 2]
  end.

(** The frame with humidity integer [h], temperature integer [t] (both 16 bits)
    and checksum byte [c]. *)
Definition frame (h t c : Z) : list Z := toBits 16 h ++ toBits 16 t ++ toBits 8 c.

(** The 8-bit truncating sum of the four data bytes. *)
Definition dataSum (h t : Z) : Z :=
  (h `div` 256 + h `mod` 256 + t `div` 256 + t `mod` 256) `mod` 256.

Definition generic (u : TemperatureUnit) : DHT := mkDHT u "" 0 0.
Definition dht11 (u : TemperatureUnit) : DHT := mkDHT u "dht11" 0 0.


(** ** readBits: the decoder

    [gpio.Level] is a [bool]: [Low = false], [High = true]. *)
Inductive Level : Type := Low | High.

Global Instance Level_eq_dec : EqDecision Level.
Proof. solve_decision. Defined.

(** [time.Duration] constants, in nanoseconds. *)
Definition Microsecond : Z := 1000.
Definition Millisecond : Z := 1000000.
Definition Second : Z := 1000000000.

(** A call that returns [(T, error)], followed by [if err != nil return]. *)
Definition res_bind {A B : Type} (m : Go (Result A)) (k : A → Go (Result B))
  : Go (Result B) :=
  r ←! m;
  match r with
  | Ok v => k v
  | Err e => Ret (Err e)
  end.

Notation "x ←? m ; k" := (res_bind m (fun x => k))
  (at level 20, m at level 100, k at level 200, right associativity,
   format "x  ←?  m ;  '/' k").

(** [l[i] = v]: a panic outside [0 <= i < len(l)]. *)
Definition store {A : Type} (l : list A) (i : Z) (v : A) : Go (list A) :=
  if (i <? 0) || (Z.of_nat (length l) <=? i) then Panic
  else Ret (<[Z.to_nat i := v]> l).

(** [for i = len(levels) - 1; ; i--], entered at [i]: the index of the last
    low level, or the error once a level at an index below 80 is not low. *)
Fixpoint lastLow (levels : list Level) (i : nat) : Go (Result Z) :=
  l ←! index levels (Z.of_nat i);
  match l with
  | Low => Ret (Ok (Z.of_nat i))
  | High =>
      if Z.of_nat i <? 80 then Ret (Err ErrLowNotFound)
      else match i with
           | O => Ret (Err ErrLowNotFound)
           | S i' => lastLow levels i'
           end
  end.

Definition findEndNumber (levels : list Level) : Go (Result Z) :=
  let i := Z.of_nat (length levels) - 1 in
  if i <? 0 then Panic else lastLow levels (Z.to_nat i).

(** [for i = a; i < b; i += 2]: the values of [i], [n] of them from [a] on,
    and all of them. *)
Fixpoint stride2_from (a : Z) (n : nat) : list Z :=
  match n with
  | O => []
  | S n' => a :: stride2_from (a + 2) n'
  end.

Definition stride2 (a b : Z) : list Z :=
  stride2_from a (Z.to_nat ((b - a + 1) `div` 2)).

(** A [for] loop over the values [idxs] whose body may return an error. *)
Fixpoint forEach {S : Type} (body : Z → S → Go (Result S)) (idxs : list Z) (s : S)
  : Go (Result S) :=
  match idxs with
  | [] => Ret (Ok s)
  | i :: idxs' => s' ←? body i s; forEach body idxs' s'
  end.

(** The body of the loop over the high pulses; the state is [(index, bits)]. *)
Definition highBody (levels : list Level) (durations : list Z)
    (i : Z) (s : Z * list Z) : Go (Result (Z * list Z)) :=
  l ←! index levels i;
  if decide (l ≠ High) then Ret (Err ErrNotHigh) else
  d ←! index durations i;
  if d >? 90 * Microsecond then Ret (Err (ErrHighTooLong d)) else
  bits ←! (if d >? 30 * Microsecond then store s.2 s.1 1 else Ret s.2);
  Ret (Ok (s.1 + 1, bits)).

(** The body of the loop over the low pulses. *)
Definition lowBody (levels : list Level) (durations : list Z)
    (i : Z) (s : unit) : Go (Result unit) :=
  l ←! index levels i;
  if decide (l ≠ Low) then Ret (Err ErrNotLow) else
  d ←! index durations i;
  if d >? 70 * Microsecond then Ret (Err (ErrLowTooLong d)) else
  if d <? 35 * Microsecond then Ret (Err (ErrLowTooShort d)) else
  Ret (Ok ()).

(** The two loops of [readBits] over the window that ends at [endNumber]. *)
Definition decodeWindow (levels : list Level) (durations : list Z) (endNumber : Z)
  : Go (Result (list Z)) :=
  let startNumber := endNumber - 79 in
  s ←? forEach (highBody levels durations) (stride2 startNumber endNumber)
         (0, replicate 40 0);
  _ ←? forEach (lowBody levels durations)
         (stride2 (startNumber + 1) (endNumber + 1)) ();
  Ret (Ok s.2).

(** [readBits] from "get last low reading so know start of data" on. *)
Definition decodePulses (levels : list Level) (durations : list Z)
  : Go (Result (list Z)) :=
  endNumber ←? findEndNumber levels;
  decodeWindow levels durations endNumber.

(** ** The environment

    What the pin does during one call of [readBits]: the errors of the three
    pin configurations, the first level read, and for each of the 84 slots what
    the busy read [for levelPrevious == level && time.Since(startTime) <
    time.Millisecond] ends with: the time since [startTime] and the level read
    last. The result of [pin.Out(gpio.High)] on the two early error paths is
    dropped by the code. *)
Record PinScript : Type := mkPinScript {
  outLowErr : option string;
  inErr : option string;
  firstLevel : Level;
  slot : nat → Z * Level;
  outHighErr : option string
}.

(** The effects of the package, in program order. *)
Inductive Event : Type :=
| EvSetLastRead (t : Z)          (* dht.lastRead = time.Now() *)
| EvSetGCPercent (p : Z)         (* debug.SetGCPercent(p) *)
| EvPinOut (l : Level)           (* dht.pin.Out(l) *)
| EvPinIn                        (* dht.pin.In(gpio.PullUp, gpio.NoEdge) *)
| EvPinRead                      (* dht.pin.Read(), once or in a busy read *)
| EvSleep (d : Z)                (* time.Sleep(d) *)
| EvStore (h t : float)          (* *humidity = h; *temperature = t *)
| EvCloseStopped.                (* close(stopped) *)

(** [now]: the clock, in nanoseconds. [gcPercent]: the collector's setting.
    [pinScript n]: what the pin does during the [n]-th capture. [captures]: the
    captures made so far. [selectStop t]: when both cases of a [select] are
    ready at time [t], whether the runtime picks [<-stop]. [trace]: the effects
    so far, the latest first. *)
Record World : Type := mkWorld {
  now : Z;
  gcPercent : Z;
  pinScript : nat → PinScript;
  captures : nat;
  selectStop : Z → bool;
  trace : list Event
}.

Definition emit (e : Event) (w : World) : World :=
  mkWorld (now w) (gcPercent w) (pinScript w) (captures w) (selectStop w)
    (e :: trace w).

Definition advance (d : Z) (w : World) : World :=
  mkWorld (now w + d) (gcPercent w) (pinScript w) (captures w) (selectStop w)
    (trace w).

Definition setGCPercent (p : Z) (w : World) : World :=
  mkWorld (now w) p (pinScript w) (captures w) (selectStop w)
    (EvSetGCPercent p :: trace w).

Definition nextCapture (w : World) : World :=
  mkWorld (now w) (gcPercent w) (pinScript w) (S (captures w)) (selectStop w)
    (trace w).

Definition setLastRead (t : Z) (dht : DHT) : DHT :=
  mkDHT (temperatureUnit dht) (sensorType dht) (numErrors dht) t.

(** [time.Sleep(d)]: returns at once when [d <= 0]. *)
Definition sleep (d : Z) (w : World) : World := advance (Z.max 0 d) (emit (EvSleep d) w).

(** [time.Since(t)]: the difference, kept inside the range of a Duration. *)
Definition since (w : World) (t : Z) : Z :=
  Z.max (- 2 ^ 63) (Z.min (2 ^ 63 - 1) (now w - t)).

(** ** readBits, with the pin (dhtNotWindows.go) *)

(** One slot of [for i = 0; i < 84; i++]; the state is
    [(levelPrevious, levels, durations)] and the world. *)
Definition sampleStep (p : PinScript)
    (st : Level * list Level * list Z * World) (i : nat)
  : Level * list Level * list Z * World :=
  let '(levelPrevious, levels, durations, w) := st in
  let '(d, level) := slot p i in
  (level, levels ++ [levelPrevious], durations ++ [d],
   emit EvPinRead (advance d w)).

(** [levelPrevious = dht.pin.Read()] has been done: the 84 slots. *)
Definition sample (p : PinScript) (w : World) : Level * list Level * list Z * World :=
  foldl (sampleStep p) (firstLevel p, [], [], w) (seq 0 84).

(** [readBits]: the write of [lastRead], the collector switched off, the start
    signal, the 84 slots, the collector and the pin restored, the decoder. The
    early returns leave the collector off, as the code does. *)
Definition readBits_pin (dht : DHT) (w : World)
  : Go (Result (list Z) * DHT * World) :=
  let p := pinScript w (captures w) in
  let dht := setLastRead (now w) dht in
  let w := emit (EvSetLastRead (now w)) (nextCapture w) in
  let gcOld := gcPercent w in
  let w := setGCPercent (-1) w in
  let w := emit (EvPinOut Low) w in
  match outLowErr p with
  | Some e => Ret (Err (ErrPinOutLow e), dht, emit (EvPinOut High) w)
  | None =>
  let w := sleep Millisecond w in
  let w := emit EvPinIn w in
  match inErr p with
  | Some e => Ret (Err (ErrPinIn e), dht, emit (EvPinOut High) w)
  | None =>
  let '(_, levels, durations, w) := sample p (emit EvPinRead w) in
  let w := setGCPercent gcOld w in
  let w := emit (EvPinOut High) w in
  match outHighErr p with
  | Some e => Ret (Err (ErrPinOutHigh e), dht, w)
  | None => r ←! decodePulses levels durations; Ret (r, dht, w)
  end end end.

(** ** readBits, without the pin (dhtWindows.go) *)

Definition readBits_windows (dht : DHT) (w : World)
  : Go (Result (list Z) * DHT * World) :=
  Ret (Ok (replicate 40 0), setLastRead (now w) dht,
       emit (EvSetLastRead (now w)) w).

(** The build tag selects one of the two. *)
Inductive Build : Type := NotWindows | Windows.

Definition readBits (b : Build) : DHT → World → Go (Result (list Z) * DHT * World) :=
  match b with
  | NotWindows => readBits_pin
  | Windows => readBits_windows
  end.

(** ** Read *)

(** [sleepTime] before [time.Since(dht.lastRead)] is taken off. *)
Definition sleepTimeOf (numErrors : Z) : Z :=
  if numErrors <? 57
  then wrap64 (2 * Second + wrap64 (wrap64 (numErrors * 500) * Millisecond))
  else 30 * Second.

(** [sleepTime] as handed to [time.Sleep]. *)
Definition sleepTime (dht : DHT) (w : World) : Z :=
  wrap64 (sleepTimeOf (numErrors dht) - since w (lastRead dht)).

Definition Read (b : Build) (dht : DHT) (w : World) : Go (Values * DHT * World) :=
  let w := sleep (sleepTime dht w) w in
  '(r, dht, w) ←! readBits b dht w;
  match r with
  | Err e => Ret (mkValues 0 0 (Some e), dht, w)
  | Ok bits => v ←! bitsToValues dht bits; Ret (v, dht, w)
  end.

(** ** ReadRetry *)

(** [for i := 0; i < maxRetries; i++] with [n] iterations left; [last] holds
    the named results. *)
Fixpoint ReadRetry_loop (b : Build) (n : nat) (last : Values) (dht : DHT) (w : World)
  : Go (Values * DHT * World) :=
  match n with
  | O => Ret (last, dht, w)
  | S n' =>
      '(v, dht, w) ←! Read b dht w;
      match err v with
      | None => Ret (v, dht, w)
      | Some _ => ReadRetry_loop b n' v dht w
      end
  end.

Definition ReadRetry (b : Build) (maxRetries : Z) (dht : DHT) (w : World)
  : Go (Values * DHT * World) :=
  ReadRetry_loop b (Z.to_nat maxRetries) zeroValues dht w.

(** ** ReadBackground

    The caller's side: the two cells behind the pointers [humidity] and
    [temperature] and whether [stopped] is closed. [stop] is closed by the
    caller's goroutine at time [stopAt], or never. The pointers and channels
    are not nil. *)
Record Caller : Type := mkCaller {
  humidityCell : float;
  temperatureCell : float;
  stoppedClosed : bool
}.

Definition stopClosed (stopAt : option Z) (t : Z) : bool :=
  match stopAt with
  | Some s => s <=? t
  | None => false
  end.

(** [select { case <-time.After(d): case <-stop: break Loop }]: whether the
    loop is left, and the world when the select returns. The timer is ready at
    [now + max 0 d], [stop] once closed. *)
Definition selectAfterOrStop (d : Z) (stopAt : option Z) (w : World) : bool * World :=
  let timer := now w + Z.max 0 d in
  match stopAt with
  | None => (false, advance (timer - now w) w)
  | Some s =>
      let ready := Z.max (now w) s in
      if ready <? timer then (true, advance (ready - now w) w)
      else if timer <? ready then (false, advance (timer - now w) w)
      else (selectStop w timer, advance (timer - now w) w)
  end.

(** The loop [Loop: for { ... }], at most [fuel] iterations; [None] when they
    do not reach [break Loop]. *)
Fixpoint ReadBackground_loop (b : Build) (fuel : nat) (sleepDuration : Z)
    (stopAt : option Z) (dht : DHT) (w : World) (c : Caller)
  : option (Go (DHT * World * Caller)) :=
  match fuel with
  | O => None
  | S fuel' =>
      let startTime := now w in
      match Read b dht w with
      | Panic => Some Panic
      | Ret (v, dht, w) =>
          match err v with
          | None =>
              let c := mkCaller (humidity v) (temperature v) (stoppedClosed c) in
              let w := emit (EvStore (humidity v) (temperature v)) w in
              let '(stopSeen, w) :=
                selectAfterOrStop (wrap64 (sleepDuration - since w startTime))
                  stopAt w in
              if stopSeen then Some (Ret (dht, w, c))
              else ReadBackground_loop b fuel' sleepDuration stopAt dht w c
          | Some _ =>
              if stopClosed stopAt (now w) then Some (Ret (dht, w, c))
              else ReadBackground_loop b fuel' sleepDuration stopAt dht w c
          end
      end
  end.

(** [close(stopped)] panics when [stopped] is closed already. *)
Definition ReadBackground (b : Build) (fuel : nat) (sleepDuration : Z)
    (stopAt : option Z) (dht : DHT) (w : World) (c : Caller)
  : option (Go (DHT * World * Caller)) :=
  match ReadBackground_loop b fuel sleepDuration stopAt dht w c with
  | None => None
  | Some Panic => Some Panic
  | Some (Ret (dht, w, c)) =>
      if stoppedClosed c then Some Panic
      else Some (Ret (dht, emit EvCloseStopped w,
                      mkCaller (humidityCell c) (temperatureCell c) true))
  end.

(** ** Definitions used in the statements *)

(** The value of a run of bits, most significant first, after [v]. *)
Definition accBits (l : list Z) (v : Z) : Z := foldl (fun a b => 2 * a + b) v l.

Definition isBit (b : Z) : Prop := b = 0 ∨ b = 1.

(** The temperature integer as the specification reads the 16-bit field:
    sign and magnitude, the top bit the sign, the other 15 bits the
    magnitude. *)
Definition signMagnitude (t : Z) : Z :=
  if 32768 <=? t then - (t - 32768) else t.

(** The same field as two's complement. *)
Definition twosComplement (t : Z) : Z :=
  if t <? 32768 then t else t - 65536.

(** The limits of the two range checks: [(hmax, tmin, tmax)]. *)
Definition limits (dht : DHT) : Z * Z * Z :=
  if String.eqb (sensorType dht) "dht11" then (100, 0, 50) else (1000, -400, 800).

(** The checks that [highBody] makes at index [i], and the bit it stores. *)
Definition highCheck (levels : list Level) (durations : list Z) (i : Z)
  : Go (Result Z) :=
  l ←! index levels i;
  if decide (l ≠ High) then Ret (Err ErrNotHigh) else
  d ←! index durations i;
  if d >? 90 * Microsecond then Ret (Err (ErrHighTooLong d)) else
  Ret (Ok (if d >? 30 * Microsecond then 1 else 0)).

(** The results of [check] along [idxs], up to the first error. *)
Fixpoint collect (check : Z → Go (Result Z)) (idxs : list Z) : Go (Result (list Z)) :=
  match idxs with
  | [] => Ret (Ok [])
  | i :: idxs' => b ←? check i; bs ←? collect check idxs'; Ret (Ok (b :: bs))
  end.

(** *** Example environments *)

(** A sensor that answers with the 40 bits [bits]: four pulses of handshake,
    then for each bit a high pulse of 26 or 70 microseconds and a low pulse of
    50 microseconds; the level recorded in slot [i] is high for even [i]. *)
Definition sensorSlot (bits : list Z) (i : nat) : Z * Level :=
  (if (i <? 4)%nat then 80 * Microsecond
   else if Nat.even i
        then (if decide (bits !! ((i - 4) `div` 2)%nat = Some 1)
              then 70 * Microsecond else 26 * Microsecond)
        else 50 * Microsecond,
   if Nat.even (S i) then High else Low).

Definition sensor (bits : list Z) : PinScript :=
  mkPinScript None None High (sensorSlot bits) None.

(** A pin that refuses [Out(gpio.Low)]. *)
Definition deadPin : PinScript :=
  mkPinScript (Some "no pin") None High (fun _ => (0, High)) None.

(** A sensor whose answer ends one pulse early: the last low level is at index
    79 and the slots 80 to 83 time out on a high level. *)
Definition earlySlot (bits : list Z) (i : nat) : Z * Level :=
  (if (80 <=? i)%nat then Millisecond
   else if Nat.even i
        then (if decide (bits !! (i `div` 2)%nat = Some 1)
              then 70 * Microsecond else 26 * Microsecond)
        else 50 * Microsecond,
   if (79 <=? i)%nat then High else if Nat.even (S i) then High else Low).

Definition earlySensor (bits : list Z) : PinScript :=
  mkPinScript None None High (earlySlot bits) None.

(** The world at time [t] in which every capture meets the pin [p]. *)
Definition worldAt (t : Z) (p : PinScript) : World :=
  mkWorld t 100 (fun _ => p) 0 (fun _ => true) [].

(** Humidity 65.2 %, temperature 25.1 degrees Celsius. *)
Definition exampleFrame : list Z := frame 652 251 (dataSum 652 251).

Definition exampleLevels : list Level :=
  (sample (sensor exampleFrame) (worldAt 0 (sensor exampleFrame))).1.1.2.

Definition exampleDurations : list Z :=
  (sample (sensor exampleFrame) (worldAt 0 (sensor exampleFrame))).1.2.

(** [k] calls of [Read] one after the other, whatever they return: what the
    last one returns, and [last] when [k] is 0. *)
Fixpoint ReadTimes (b : Build) (k : nat) (last : Values) (dht : DHT) (w : World)
  : Go (Values * DHT * World) :=
  match k with
  | O => Ret (last, dht, w)
  | S k' => '(v, dht, w) ←! Read b dht w; ReadTimes b k' v dht w
  end.

(** No busy read of the pin takes a negative time. *)
Definition wellTimed (w : World) : Prop :=
  ∀ (n i : nat), 0 ≤ (slot (pinScript w n) i).1.

(** The events of a list that are not writes of [lastRead]. *)
Definition notSetLastRead (e : Event) : Prop := ∀ t, e ≠ EvSetLastRead t.

(** A handle as [NewDHT] leaves it at time [t]: no errors counted, the last
    read one second in the past. *)
Definition newHandle (u : TemperatureUnit) (sensor : string) (t : Z) : DHT :=
  mkDHT u sensor 0 (t - Second).

(** ** NewDHT (dhtNotWindows.go, dhtWindows.go) *)

(** The errors of [NewDHT]: "pin is nill" and "pin out high error: %v". *)
Inductive InitError : Type :=
| ErrPinNil
| ErrInitOutHigh (e : string).

(** [strings.ToLower] on the letters of ASCII. The library lowers letters
    outside ASCII too; none of them becomes a character of "dht11", so the
    comparison below is the one the code makes. *)
Definition lowerAscii (a : Ascii.ascii) : Ascii.ascii :=
  let n := Ascii.nat_of_ascii a in
  if (65 <=? n)%nat && (n <=? 90)%nat then Ascii.ascii_of_nat (n + 32) else a.

Fixpoint toLower (s : string) : string :=
  match s with
  | EmptyString => EmptyString
  | String a s' => String (lowerAscii a) (toLower s')
  end.

(** [gpioreg.ByName]: no pin of that name, or the pin and what its first
    [Out(gpio.High)] returns. *)
Definition Registry : Type := string → option (option string).

Definition NewDHT (b : Build) (reg : Registry) (pinName : string)
    (temperatureUnit : TemperatureUnit) (sensorType : string) (w : World)
  : (InitError + DHT) * World :=
  let sensorType :=
    if String.eqb (toLower sensorType) "dht11" then "dht11"%string else ""%string in
  match b with
  | NotWindows =>
      match reg pinName with
      | None => (inl ErrPinNil, w)
      | Some r =>
          let w := emit (EvPinOut High) w in
          match r with
          | Some e => (inl (ErrInitOutHigh e), w)
          | None => (inr (mkDHT temperatureUnit sensorType 0 (now w - Second)), w)
          end
      end
  | Windows => (inr (mkDHT temperatureUnit sensorType 0 (now w - Second)), w)
  end.

(** A registry with the one pin "GPIO19", in working order. *)
Definition oneGoodPin : Registry :=
  fun name => if String.eqb name "GPIO19" then Some None else None.

(** The errors that [readBits] builds: those of the pin and those of the
    decoder. *)
Definition isCaptureError (e : Error) : bool :=
  match e with
  | ErrHumidity _ | ErrTemperature _ | ErrCheckSum => false
  | _ => true
  end.

(** The frame of five bytes: humidity high and low, temperature high and low,
    checksum. *)
Definition bytesFrame (v0 v1 v2 v3 v4 : Z) : list Z :=
  toBits 8 v0 ++ toBits 8 v1 ++ toBits 8 v2 ++ toBits 8 v3 ++ toBits 8 v4.

(** * Properties *)

(** ** Machine integers *)

Lemma wrap64_id (z : Z) : - 2 ^ 63 ≤ z < 2 ^ 63 → wrap64 z = z.
Proof.
  intros Hz. unfold wrap64.
  rewrite Z.mod_small by lia. lia.
Qed.

(** Bounds against the limits of an [int64], the powers as numerals. *)
Ltac int64_lia :=
  change (2 ^ 63) with 9223372036854775808 in *;
  change (2 ^ 32) with 4294967296 in *;
  lia.

Lemma u8_id (z : Z) : 0 ≤ z < 256 → u8 z = z.
Proof. intros Hz. unfold u8. by rewrite Z.mod_small. Qed.

Lemma signExtend_16 (t : Z) :
  0 ≤ t < 65536 → signExtend t = twosComplement t.
Proof.
  intros Ht. unfold signExtend, twosComplement.
  assert (Hland : Z.land t 32768 = if t <? 32768 then 0 else 32768).
  { apply Z.bits_inj'. intros n Hn.
    rewrite Z.land_spec. change 32768 with (2 ^ 15).
    rewrite Z.pow2_bits_eqb by lia.
    destruct (Z.eqb_spec 15 n) as [<- | Hne].
    - rewrite andb_true_r.
      destruct (Z.ltb_spec t (2 ^ 15)).
      + rewrite Z.bits_0. apply Z.bits_above_log2; [lia |].
        destruct (Z.eq_dec t 0) as [-> | ?]; [done |].
        apply Z.log2_lt_pow2; lia.
      + rewrite Z.pow2_bits_eqb by lia. rewrite Z.eqb_refl.
        rewrite Z.testbit_true by lia.
        assert (t `div` 2 ^ 15 = 1) as ->
          by (symmetry; apply (Z.div_unique t _ 1 (t - 2 ^ 15)); lia).
        done.
    - rewrite andb_false_r.
      destruct (Z.ltb_spec t (2 ^ 15)).
      + by rewrite Z.bits_0.
      + rewrite Z.pow2_bits_eqb by lia.
        by destruct (Z.eqb_spec 15 n). }
  rewrite Hland.
  destruct (Z.ltb_spec t 32768); [done |].
  change (32768 >? 0) with true. cbv iota.
  pose proof (Z.add_lor_land t (Z.lnot 65535)) as Hadd.
  assert (Z.land t (Z.lnot 65535) = 0) as Hz.
  { change 65535 with (Z.ones 16).
    rewrite <- Z.ldiff_land, Z.ldiff_ones_r by lia.
    rewrite Z.shiftr_div_pow2 by lia.
    rewrite Z.div_small by lia. apply Z.shiftl_0_l. }
  rewrite Hz in Hadd. change (Z.lnot 65535) with (-65536) in *. lia.
Qed.

(** ** Index ranges and lookups *)

Lemma upto_app (a : Z) (n m : nat) :
  upto a (n + m) = upto a n ++ upto (a + Z.of_nat n) m.
Proof.
  revert a. induction n as [| n IH]; intros a; simpl.
  - by rewrite Z.add_0_r.
  - rewrite IH. do 3 f_equal. lia.
Qed.

Lemma index_app_mid {A : Type} (pre post : list A) (x : A) :
  index (pre ++ x :: post) (Z.of_nat (length pre)) = Ret x.
Proof.
  unfold index.
  destruct (Z.ltb_spec (Z.of_nat (length pre)) 0); [lia |].
  rewrite Nat2Z.id, list_lookup_middle; done.
Qed.

(** ** The bit loops of bitsToValues *)

Lemma toBits_isBit (n : nat) (v : Z) : Forall isBit (toBits n v).
Proof.
  revert v. induction n as [| n IH]; intros v; simpl; [constructor |].
  apply Forall_app. split; [apply IH |].
  constructor; [| constructor].
  unfold isBit. pose proof (Z.mod_pos_bound v 2). lia.
Qed.

Lemma length_toBits (n : nat) (v : Z) : length (toBits n v) = n.
Proof.
  revert v. induction n as [| n IH]; intros v; simpl; [done |].
  rewrite length_app, IH. simpl. lia.
Qed.

Lemma accBits_toBits (n : nat) (v a : Z) :
  0 ≤ v < 2 ^ Z.of_nat n → accBits (toBits n v) a = a * 2 ^ Z.of_nat n + v.
Proof.
  revert v. induction n as [| n IH]; intros v Hv.
  - simpl in *. lia.
  - simpl toBits. unfold accBits in *. rewrite foldl_app. simpl.
    rewrite Nat2Z.inj_succ, Z.pow_succ_r in * by lia.
    rewrite IH.
    + pose proof (Z.div_mod v 2). lia.
    + split; [apply Z.div_pos; lia |].
      apply Z.div_lt_upper_bound; lia.
Qed.

Lemma toBits_app (n m : nat) (v : Z) :
  toBits (n + m) v = toBits n (v `div` 2 ^ Z.of_nat m) ++ toBits m (v `mod` 2 ^ Z.of_nat m).
Proof.
  revert v. induction m as [| m IH]; intros v.
  - rewrite Nat.add_0_r. simpl. by rewrite Z.div_1_r, app_nil_r.
  - rewrite Nat.add_succ_r. simpl toBits. rewrite IH.
    rewrite Nat2Z.inj_succ, Z.pow_succ_r by lia.
    assert (0 < 2 ^ Z.of_nat m) by (apply Z.pow_pos_nonneg; lia).
    pose proof (Z.rem_mul_r v 2 (2 ^ Z.of_nat m) ltac:(lia) ltac:(lia)) as Hrem.
    pose proof (Z.mod_pos_bound v 2 ltac:(lia)).
    assert (Hq : (v `mod` (2 * 2 ^ Z.of_nat m)) `div` 2 = (v `div` 2) `mod` 2 ^ Z.of_nat m).
    { rewrite Hrem. symmetry.
      apply (Z.div_unique _ 2 _ (v `mod` 2)); lia. }
    assert (Hr : (v `mod` (2 * 2 ^ Z.of_nat m)) `mod` 2 = v `mod` 2).
    { rewrite Hrem. symmetry.
      apply (Z.mod_unique _ 2 ((v `div` 2) `mod` 2 ^ Z.of_nat m)); lia. }
    rewrite Hq, Hr, <- app_assoc, Z.div_div by lia. done.
Qed.

(** A run of the first two loops over indices none of which flushes. *)
Lemma bitStep_run (fa fb : Z) (seg : list Z) :
  ∀ (bits pre post : list Z) (acc s8 tot : Z),
    bits = pre ++ seg ++ post →
    (∀ k, 0 ≤ k < Z.of_nat (length seg) →
          Z.of_nat (length pre) + k ≠ fa ∧ Z.of_nat (length pre) + k ≠ fb) →
    Forall isBit seg →
    0 ≤ acc → (acc + 1) * 2 ^ Z.of_nat (length seg) ≤ 2 ^ 63 →
    0 ≤ s8 → (s8 + 1) * 2 ^ Z.of_nat (length seg) ≤ 256 →
    foldl (bitStep fa fb bits) (Ret (mkBitAcc acc s8 tot))
      (upto (Z.of_nat (length pre)) (length seg))
    = Ret (mkBitAcc (accBits seg acc) (accBits seg s8) tot).
Proof.
  induction seg as [| b seg IH]; intros bits pre post acc s8 tot Hbits Hfl Hseg Ha Ha' Hs Hs';
    [done |].
  inversion_clear Hseg as [| ? ? Hb Hseg'].
  simpl length in *. rewrite Nat2Z.inj_succ, Z.pow_succ_r in * by lia.
  assert (0 < 2 ^ Z.of_nat (length seg)) by (apply Z.pow_pos_nonneg; lia).
  simpl upto. simpl foldl.
  assert (index bits (Z.of_nat (length pre)) = Ret b) as ->
    by (rewrite Hbits; apply index_app_mid).
  simpl go_bind.
  destruct (Hfl 0 ltac:(lia)) as [Hfa Hfb].
  rewrite Z.add_0_r in Hfa, Hfb.
  destruct (Z.eqb_spec (Z.of_nat (length pre)) fa) as [? | _]; [done |].
  destruct (Z.eqb_spec (Z.of_nat (length pre)) fb) as [? | _]; [done |].
  simpl orb. cbv iota.
  rewrite !Z.shiftl_mul_pow2 by lia. change (2 ^ 1) with 2.
  assert (Hb' : 0 ≤ b ≤ 1) by (unfold isBit in Hb; lia).
  unfold wrapInt. rewrite (wrap64_id (acc * 2)) by nia.
  rewrite (wrap64_id (acc * 2 + b)) by nia.
  rewrite (u8_id (s8 * 2)) by nia. rewrite (u8_id b) by lia.
  rewrite (u8_id (s8 * 2 + b)) by nia.
  replace (Z.of_nat (length pre) + 1) with (Z.of_nat (length (pre ++ [b])))
    by (rewrite length_app; simpl; lia).
  rewrite (IH bits (pre ++ [b]) post).
  - unfold accBits. simpl. do 2 f_equal; f_equal; lia.
  - rewrite Hbits, <- app_assoc. done.
  - intros k Hk. rewrite length_app. simpl length.
    specialize (Hfl (k + 1) ltac:(lia)). lia.
  - done.
  - lia.
  - nia.
  - lia.
  - nia.
Qed.

(** Eight iterations over one byte, the last of which adds [sum8] to
    [sumTotal]. *)
Lemma bitStep_byte (fa fb : Z) (bits pre seg post : list Z) (v acc tot : Z) :
  seg = toBits 8 v →
  bits = pre ++ seg ++ post →
  (∀ k, 0 ≤ k < 7 →
        Z.of_nat (length pre) + k ≠ fa ∧ Z.of_nat (length pre) + k ≠ fb) →
  (Z.of_nat (length pre) + 7 = fa ∨ Z.of_nat (length pre) + 7 = fb) →
  0 ≤ v < 256 → 0 ≤ acc < 2 ^ 32 →
  foldl (bitStep fa fb bits) (Ret (mkBitAcc acc 0 tot))
    (upto (Z.of_nat (length pre)) 8)
  = Ret (mkBitAcc (acc * 256 + v) 0 (u8 (tot + v))).
Proof.
  intros -> Hbits Hno Hfl Hv Hacc.
  change 8%nat with (7 + 1)%nat. rewrite upto_app, foldl_app.
  change (toBits 8 v) with (toBits 7 (v `div` 2) ++ [v `mod` 2]) in Hbits.
  rewrite <- app_assoc in Hbits.
  pose proof (length_toBits 7 (v `div` 2)) as Hlen.
  assert (Hv2 : 0 ≤ v `div` 2 < 2 ^ Z.of_nat 7).
  { change (2 ^ Z.of_nat 7) with 128.
    split; [apply Z.div_pos; lia | apply Z.div_lt_upper_bound; lia]. }
  rewrite <- Hlen at 1.
  rewrite (bitStep_run fa fb _ bits pre ([v `mod` 2] ++ post) acc 0 tot Hbits).
  - rewrite !accBits_toBits by done.
    simpl upto. simpl foldl.
    assert (Hidx : index bits (Z.of_nat (length pre) + Z.of_nat 7) = Ret (v `mod` 2)).
    { replace (Z.of_nat (length pre) + Z.of_nat 7)
        with (Z.of_nat (length (pre ++ toBits 7 (v `div` 2))))
        by (rewrite length_app, Hlen; lia).
      rewrite Hbits, app_assoc. apply index_app_mid. }
    rewrite Hidx. simpl go_bind.
    assert ((Z.of_nat (length pre) + Z.of_nat 7 =? fa)
            || (Z.of_nat (length pre) + Z.of_nat 7 =? fb) = true) as ->.
    { apply orb_true_iff. rewrite !Z.eqb_eq. change (Z.of_nat 7) with 7. lia. }
    rewrite !Z.shiftl_mul_pow2 by lia. change (2 ^ 1) with 2.
    change (2 ^ Z.of_nat 7) with 128 in *.
    pose proof (Z.div_mod v 2 ltac:(lia)).
    pose proof (Z.mod_pos_bound v 2 ltac:(lia)).
    change (2 ^ 32) with 4294967296 in Hacc.
    unfold wrapInt.
    rewrite (wrap64_id ((acc * 128 + v `div` 2) * 2))
      by int64_lia.
    rewrite (wrap64_id _) by int64_lia.
    rewrite (u8_id ((0 * 128 + v `div` 2) * 2)) by lia.
    rewrite (u8_id (v `mod` 2)) by lia.
    rewrite (u8_id (_ * 2 + _)) by lia.
    replace ((acc * 128 + v `div` 2) * 2 + v `mod` 2) with (acc * 256 + v) by lia.
    replace ((0 * 128 + v `div` 2) * 2 + v `mod` 2) with v by lia.
    done.
  - rewrite Hlen. change (Z.of_nat 7) with 7. done.
  - apply toBits_isBit.
  - lia.
  - rewrite Hlen. change (2 ^ Z.of_nat 7) with 128.
    int64_lia.
  - lia.
  - rewrite Hlen. change (2 ^ Z.of_nat 7) with 128. lia.
Qed.

Lemma checkSumStep_run (seg : list Z) :
  ∀ (bits pre post : list Z) (c : Z),
    bits = pre ++ seg ++ post →
    Forall isBit seg →
    0 ≤ c → (c + 1) * 2 ^ Z.of_nat (length seg) ≤ 256 →
    foldl (checkSumStep bits) (Ret c) (upto (Z.of_nat (length pre)) (length seg))
    = Ret (accBits seg c).
Proof.
  induction seg as [| b seg IH]; intros bits pre post c Hbits Hseg Hc Hc'; [done |].
  inversion_clear Hseg as [| ? ? Hb Hseg'].
  simpl length in *. rewrite Nat2Z.inj_succ, Z.pow_succ_r in * by lia.
  assert (0 < 2 ^ Z.of_nat (length seg)) by (apply Z.pow_pos_nonneg; lia).
  simpl upto. simpl foldl.
  assert (index bits (Z.of_nat (length pre)) = Ret b) as ->
    by (rewrite Hbits; apply index_app_mid).
  simpl go_bind.
  rewrite !Z.shiftl_mul_pow2 by lia. change (2 ^ 1) with 2.
  assert (Hb' : 0 ≤ b ≤ 1) by (unfold isBit in Hb; lia).
  rewrite (u8_id (c * 2)) by nia. rewrite (u8_id b) by lia.
  rewrite (u8_id (c * 2 + b)) by nia.
  replace (Z.of_nat (length pre) + 1) with (Z.of_nat (length (pre ++ [b])))
    by (rewrite length_app; simpl; lia).
  rewrite (IH bits (pre ++ [b]) post).
  - unfold accBits. simpl. do 2 f_equal. lia.
  - rewrite Hbits, <- app_assoc. done.
  - done.
  - lia.
  - nia.
Qed.

Lemma frame_bytes (h t c : Z) :
  frame h t c
  = toBits 8 (h `div` 256) ++ toBits 8 (h `mod` 256)
    ++ toBits 8 (t `div` 256) ++ toBits 8 (t `mod` 256) ++ toBits 8 c.
Proof.
  unfold frame. change 16%nat with (8 + 8)%nat.
  rewrite !toBits_app. change (2 ^ Z.of_nat 8) with 256.
  by rewrite <- !app_assoc.
Qed.

Lemma length_frame (h t c : Z) : length (frame h t c) = 40%nat.
Proof. unfold frame. rewrite !length_app, !length_toBits. done. Qed.

Lemma byte_bounds (v : Z) :
  0 ≤ v < 65536 → 0 ≤ v `div` 256 < 256 ∧ 0 ≤ v `mod` 256 < 256.
Proof.
  intros Hv. split; [| apply Z.mod_pos_bound; lia].
  split; [apply Z.div_pos; lia | apply Z.div_lt_upper_bound; lia].
Qed.

(** The three loops of [bitsToValues] on a frame: the two integers, the
    checksum byte and the sum of the data bytes. *)
Lemma bitsToValues_frame (dht : DHT) (h t c : Z) :
  0 ≤ h < 65536 → 0 ≤ t < 65536 → 0 ≤ c < 256 →
  bitsToValues dht (frame h t c)
  = Ret (valuesOf dht h (signExtend t) c (dataSum h t)).
Proof.
  intros Hh Ht Hc.
  destruct (byte_bounds h Hh) as [Hhh Hhl].
  destruct (byte_bounds t Ht) as [Hth Htl].
  pose proof (frame_bytes h t c) as Hf.
  assert (Hl0 : length (toBits 8 (h `div` 256)) = 8%nat) by apply length_toBits.
  assert (Hl1 : length (toBits 8 (h `mod` 256)) = 8%nat) by apply length_toBits.
  assert (Hl2 : length (toBits 8 (t `div` 256)) = 8%nat) by apply length_toBits.
  assert (Hl3 : length (toBits 8 (t `mod` 256)) = 8%nat) by apply length_toBits.
  assert (Hl4 : length (toBits 8 c) = 8%nat) by apply length_toBits.
  assert (Hb4 : Forall isBit (toBits 8 c)) by apply toBits_isBit.
  assert (Hc4 : accBits (toBits 8 c) 0 = c) by (by rewrite accBits_toBits).
  remember (frame h t c) as bits eqn:Ebits. clear Ebits.
  remember (toBits 8 (h `div` 256)) as b0 eqn:E0.
  remember (toBits 8 (h `mod` 256)) as b1 eqn:E1.
  remember (toBits 8 (t `div` 256)) as b2 eqn:E2.
  remember (toBits 8 (t `mod` 256)) as b3 eqn:E3.
  remember (toBits 8 c) as b4 eqn:E4.
  unfold bitsToValues.
  change 16%nat with (8 + 8)%nat. rewrite !upto_app, !foldl_app.
  change (0 + Z.of_nat 8) with 8. change (16 + Z.of_nat 8) with 24.
  (* humidity, high byte *)
  change (upto 0 8) with (upto (Z.of_nat (length (@nil Z))) 8).
  rewrite (bitStep_byte 7 15 bits [] b0 (b1 ++ b2 ++ b3 ++ b4) (h `div` 256) 0 0);
    [| done | done | simpl; lia | simpl; lia | done | done].
  (* humidity, low byte *)
  replace (upto 8 8) with (upto (Z.of_nat (length b0)) 8) by (by rewrite Hl0).
  rewrite (bitStep_byte 7 15 bits b0 b1 (b2 ++ b3 ++ b4) (h `mod` 256));
    [| done | done | rewrite Hl0; lia | rewrite Hl0; lia | done
     | int64_lia].
  cbn [go_bind accSum8 accSumTotal]. rewrite foldl_app.
  (* temperature, high byte *)
  replace (upto 16 8) with (upto (Z.of_nat (length (b0 ++ b1))) 8)
    by (by rewrite length_app, Hl0, Hl1).
  rewrite (bitStep_byte 23 31 bits (b0 ++ b1) b2 (b3 ++ b4) (t `div` 256) 0);
    [| done | by rewrite Hf, <- !app_assoc
     | rewrite length_app, Hl0, Hl1; lia | rewrite length_app, Hl0, Hl1; lia
     | done | done].
  (* temperature, low byte *)
  replace (upto 24 8) with (upto (Z.of_nat (length (b0 ++ b1 ++ b2))) 8)
    by (by rewrite !length_app, Hl0, Hl1, Hl2).
  rewrite (bitStep_byte 23 31 bits (b0 ++ b1 ++ b2) b3 b4 (t `mod` 256));
    [| done | by rewrite Hf, <- !app_assoc
     | rewrite !length_app, Hl0, Hl1, Hl2; lia
     | rewrite !length_app, Hl0, Hl1, Hl2; lia | done
     | int64_lia].
  cbn [go_bind].
  (* checksum *)
  replace (upto 32 8)
    with (upto (Z.of_nat (length (b0 ++ b1 ++ b2 ++ b3))) (length b4))
    by (by rewrite !length_app, Hl0, Hl1, Hl2, Hl3, Hl4).
  rewrite (checkSumStep_run b4 bits (b0 ++ b1 ++ b2 ++ b3) [] 0);
    [| by rewrite Hf, <- !app_assoc, app_nil_r | done | done
     | by rewrite Hl4].
  cbn [go_bind accInt accSumTotal]. rewrite Hc4.
  f_equal. f_equal.
  - pose proof (Z.div_mod h 256). lia.
  - f_equal. pose proof (Z.div_mod t 256). lia.
  - unfold dataSum, u8.
    rewrite Z.add_0_l, (Z.mod_small (h `div` 256)) by lia.
    rewrite Zplus_mod_idemp_l, <- Z.add_assoc, Zplus_mod_idemp_l, Z.add_assoc. done.
Qed.

(** Every list of 40 bits is the frame of its three fields. *)
Lemma toBits_surj (n : nat) (l : list Z) :
  length l = n → Forall isBit l →
  ∃ v, 0 ≤ v < 2 ^ Z.of_nat n ∧ l = toBits n v.
Proof.
  revert l. induction n as [| n IH]; intros l Hlen Hl.
  - destruct l; [| done]. exists 0. simpl. split; [lia | done].
  - destruct (decide (l = [])) as [-> | Hne]; [done |].
    destruct (exists_last Hne) as (l' & b & ->).
    rewrite length_app in Hlen. simpl in Hlen.
    apply Forall_app in Hl as [Hl' Hb].
    inversion_clear Hb as [| ? ? Hb' _].
    destruct (IH l' ltac:(lia) Hl') as (v & Hv & ->).
    exists (2 * v + b).
    rewrite Nat2Z.inj_succ, Z.pow_succ_r by lia.
    assert (Hb2 : 0 ≤ b < 2) by (unfold isBit in Hb'; lia).
    split; [lia |]. simpl.
    rewrite (Z.mul_comm 2), Z.div_add_l, (Z.div_small b), Z.add_0_r by lia.
    rewrite Z.add_comm, Z.mod_add, Z.mod_small by lia. done.
Qed.

Lemma frame_surj (bits : list Z) :
  length bits = 40%nat → Forall isBit bits →
  ∃ h t c, 0 ≤ h < 65536 ∧ 0 ≤ t < 65536 ∧ 0 ≤ c < 256 ∧ bits = frame h t c.
Proof.
  intros Hlen Hbits.
  rewrite <- (take_drop 16 bits) in Hbits |- *.
  rewrite <- (take_drop 16 (drop 16 bits)) in Hbits |- *.
  apply Forall_app in Hbits as [H1 H23]. apply Forall_app in H23 as [H2 H3].
  destruct (toBits_surj 16 (take 16 bits)) as (h & Hh & Eh);
    [rewrite length_take; lia | done |].
  destruct (toBits_surj 16 (take 16 (drop 16 bits))) as (t & Ht & Et);
    [rewrite length_take, length_drop; lia | done |].
  destruct (toBits_surj 8 (drop 16 (drop 16 bits))) as (c & Hc & Ec);
    [rewrite !length_drop; lia | done |].
  exists h, t, c. unfold frame. rewrite <- Eh, <- Et, <- Ec. done.
Qed.

(** ** The value converter: sign and range checks *)

(** The range checks at their limits: the generic sensor takes the humidity
    integer 1000 and refuses 1001, the DHT11 takes the temperature integer 50
    and refuses 51. *)
Example bitsToValues_range_limits :
  bitsToValues (generic Celsius) (frame 1000 250 (dataSum 1000 250))
  = Ret (mkValues 100 25 None)
  ∧ bitsToValues (generic Celsius) (frame 1001 250 (dataSum 1001 250))
    = Ret (mkValues 0 0 (Some (ErrHumidity 1001)))
  ∧ bitsToValues (dht11 Celsius) (frame 40 50 (dataSum 40 50))
    = Ret (mkValues 40 50 None)
  ∧ bitsToValues (dht11 Celsius) (frame 40 51 (dataSum 40 51))
    = Ret (mkValues 0 0 (Some (ErrTemperature 51)))
  ∧ bitsToValues (dht11 Fahrenheit) (frame 40 50 (dataSum 40 50))
    = Ret (mkValues 40 122 None).
Proof. repeat split; vm_compute; reflexivity. Qed.

(** C1, as amended. For every frame the temperature integer is the 16-bit
    field read as two's complement, not as sign and magnitude. For the generic
    sensor with the humidity in range, the converter returns the range error
    when that integer is outside [-400, 800], and otherwise a tenth of it in
    degrees Celsius (or its Fahrenheit conversion), with the checksum error next
    to the values when the checksum byte differs from the sum of the data
    bytes. *)
Theorem bitsToValues_temperature_twos_complement
    (u : TemperatureUnit) (h t c : Z) :
  0 ≤ h ≤ 1000 → 0 ≤ t < 65536 → 0 ≤ c < 256 →
  bitsToValues (generic u) (frame h t c)
  = Ret (if (twosComplement t <? -400) || (twosComplement t >? 800)
         then mkValues 0 0 (Some (ErrTemperature (twosComplement t)))
         else mkValues
                (float64_of_int h / 10)%float
                (if u =? Celsius
                 then (float64_of_int (twosComplement t) / 10)%float
                 else (float64_of_int (twosComplement t) * 9 / 50 + 32)%float)
                (if negb (c =? dataSum h t) then Some ErrCheckSum else None)).
Proof.
  intros Hh Ht Hc.
  rewrite bitsToValues_frame by lia.
  rewrite signExtend_16 by done.
  unfold valuesOf, generic. cbn [sensorType temperatureUnit].
  change (negb ("" =? "dht11")%string) with true. cbv iota.
  destruct (Z.ltb_spec h 0); [lia |].
  destruct (Z.gtb_spec h 1000); [lia |].
  done.
Qed.

(** The generic sensor in Celsius: the field 0x8032 is refused as -3271.8
    degrees, 0xFFCE is -5.0 degrees and 0x0032 is +5.0 degrees. *)
Lemma bitsToValues_temperature_twos_complement_witness :
  bitsToValues (generic Celsius) (frame 500 0x8032 (dataSum 500 0x8032))
  = Ret (mkValues 0 0 (Some (ErrTemperature (-32718))))
  ∧ bitsToValues (generic Celsius) (frame 500 0xFFCE (dataSum 500 0xFFCE))
    = Ret (mkValues 50 (-5) None)
  ∧ bitsToValues (generic Celsius) (frame 500 0x0032 (dataSum 500 0x0032))
    = Ret (mkValues 50 5 None).
Proof.
  split; [| split].
  - apply (bitsToValues_temperature_twos_complement Celsius 500 0x8032
             (dataSum 500 0x8032)); vm_compute; split; congruence.
  - apply (bitsToValues_temperature_twos_complement Celsius 500 0xFFCE
             (dataSum 500 0xFFCE)); vm_compute; split; congruence.
  - apply (bitsToValues_temperature_twos_complement Celsius 500 0x0032
             (dataSum 500 0x0032)); vm_compute; split; congruence.
Defined.

(** C1 as stated fails: with the humidity in range and the checksum right,
    the field 0x8032 is not converted to the -5.0 degrees of its sign and
    magnitude reading; the converter returns the range error. *)
Lemma bitsToValues_sign_magnitude_counterexample :
  let bits := frame 500 0x8032 (dataSum 500 0x8032) in
  valuesOf (generic Celsius) 500 (signMagnitude 0x8032)
    (dataSum 500 0x8032) (dataSum 500 0x8032)
  = mkValues 50 (-5) None
  ∧ bitsToValues (generic Celsius) bits
    = Ret (mkValues 0 0 (Some (ErrTemperature (-32718))))
  ∧ bitsToValues (generic Celsius) bits ≠ Ret (mkValues 50 (-5) None).
Proof.
  cbv zeta. split; [| split].
  - vm_compute. reflexivity.
  - vm_compute. reflexivity.
  - intros H. vm_compute in H. discriminate H.
Qed.

(** C2, as amended. The two range checks come first and each returns at once:
    on every frame and for both sensor types, a humidity or temperature
    integer out of range gives the range error with zero values, whatever the
    checksum byte; the checksum error is returned exactly when both integers
    are in range and the checksum byte differs from the 8-bit sum of the four
    data bytes. *)
Theorem bitsToValues_range_checks_first (dht : DHT) (h t c : Z) :
  0 ≤ h < 65536 → 0 ≤ t < 65536 → 0 ≤ c < 256 →
  ∃ v : Values,
    bitsToValues dht (frame h t c) = Ret v
    ∧ (let '(hmax, tmin, tmax) := limits dht in
       let ti := twosComplement t in
       (hmax < h → v = mkValues 0 0 (Some (ErrHumidity h)))
       ∧ (h ≤ hmax → ti < tmin ∨ tmax < ti →
          v = mkValues 0 0 (Some (ErrTemperature ti)))
       ∧ (h ≤ hmax → tmin ≤ ti ≤ tmax →
          (err v = Some ErrCheckSum ↔ c ≠ dataSum h t)
          ∧ (err v = None ↔ c = dataSum h t))).
Proof.
  intros Hh Ht Hc.
  eexists. split; [apply bitsToValues_frame; done |].
  rewrite signExtend_16 by done.
  unfold valuesOf, limits.
  destruct (String.eqb (sensorType dht) "dht11"); cbn [negb]; cbv iota beta.
  - destruct (Z.ltb_spec h 0); [lia |]. cbn [orb].
    destruct (Z.gtb_spec h 100); (split; [| split]); try lia; try done.
    + intros _ [Hlo | Hhi].
      * destruct (Z.ltb_spec (twosComplement t) 0); [done | lia].
      * destruct (Z.gtb_spec (twosComplement t) 50); [| lia].
        by rewrite orb_true_r.
    + intros _ Hin.
      destruct (Z.ltb_spec (twosComplement t) 0); [lia |].
      destruct (Z.gtb_spec (twosComplement t) 50); [lia |].
      cbn [orb err]. destruct (Z.eqb_spec c (dataSum h t)); cbn [negb]; split; split;
        congruence.
  - destruct (Z.ltb_spec h 0); [lia |]. cbn [orb].
    destruct (Z.gtb_spec h 1000); (split; [| split]); try lia; try done.
    + intros _ [Hlo | Hhi].
      * destruct (Z.ltb_spec (twosComplement t) (-400)); [done | lia].
      * destruct (Z.gtb_spec (twosComplement t) 800); [| lia].
        by rewrite orb_true_r.
    + intros _ Hin.
      destruct (Z.ltb_spec (twosComplement t) (-400)); [lia |].
      destruct (Z.gtb_spec (twosComplement t) 800); [lia |].
      cbn [orb err]. destruct (Z.eqb_spec c (dataSum h t)); cbn [negb]; split; split;
        congruence.
Qed.

(** A generic frame whose humidity integer is 1001 and whose checksum byte is
    wrong as well. *)
Lemma bitsToValues_range_checks_first_witness :
  ∃ v : Values,
    bitsToValues (generic Celsius) (frame 1001 50 0) = Ret v
    ∧ (let '(hmax, tmin, tmax) := limits (generic Celsius) in
       let ti := twosComplement 50 in
       (hmax < 1001 → v = mkValues 0 0 (Some (ErrHumidity 1001)))
       ∧ (1001 ≤ hmax → ti < tmin ∨ tmax < ti →
          v = mkValues 0 0 (Some (ErrTemperature ti)))
       ∧ (1001 ≤ hmax → tmin ≤ ti ≤ tmax →
          (err v = Some ErrCheckSum ↔ 0 ≠ dataSum 1001 50)
          ∧ (err v = None ↔ 0 = dataSum 1001 50))).
Proof.
  apply (bitsToValues_range_checks_first (generic Celsius) 1001 50 0); lia.
Defined.

(** C2 as stated fails: on a frame whose checksum byte is wrong and whose
    humidity integer is out of range, the only error returned is the range
    error; the checksum is not looked at. *)
Lemma bitsToValues_checksum_suppressed_counterexample :
  0 ≠ dataSum 1001 50
  ∧ bitsToValues (generic Celsius) (frame 1001 50 0)
    = Ret (mkValues 0 0 (Some (ErrHumidity 1001)))
  ∧ ¬ (∃ v, bitsToValues (generic Celsius) (frame 1001 50 0) = Ret v
            ∧ err v = Some ErrCheckSum).
Proof.
  split; [| split].
  - vm_compute. discriminate.
  - vm_compute. reflexivity.
  - intros (v & Hv & He). vm_compute in Hv.
    injection Hv as <-. discriminate He.
Qed.

(** ** The decoder *)

Local Arguments stride2_from : simpl never.

Lemma index_Ret {A : Type} (l : list A) (i : Z) (x : A) :
  index l i = Ret x ↔ 0 ≤ i ∧ l !! Z.to_nat i = Some x.
Proof.
  unfold index. destruct (Z.ltb_spec i 0).
  - split; [done | lia].
  - destruct (l !! Z.to_nat i) as [a |].
    + split; [intros [= ->]; done | intros [_ [= ->]]; done].
    + split; [discriminate | intros [_ [=]]].
Qed.

Lemma index_insert_ne {A : Type} (l : list A) (i j : Z) (x : A) :
  0 ≤ j → i ≠ j → index (<[Z.to_nat j := x]> l) i = index l i.
Proof.
  intros Hj Hne. unfold index. destruct (Z.ltb_spec i 0); [done |].
  rewrite list_lookup_insert_ne by lia. done.
Qed.

Lemma index_insert_eq {A : Type} (l : list A) (j : Z) (x y : A) :
  index l j = Ret y → index (<[Z.to_nat j := x]> l) j = Ret x.
Proof.
  intros [Hj Hl]%index_Ret. apply index_Ret. split; [done |].
  apply list_lookup_insert_eq. by eapply lookup_lt_Some.
Qed.

Lemma length_stride2_from (a : Z) (n : nat) : length (stride2_from a n) = n.
Proof. revert a. induction n as [| n IH]; intros a; simpl; [done | by rewrite IH]. Qed.

Lemma stride2_from_lookup (a : Z) (n j : nat) :
  (j < n)%nat → stride2_from a n !! j = Some (a + 2 * Z.of_nat j).
Proof.
  revert a j. induction n as [| n IH]; intros a j Hj; [lia |].
  destruct j as [| j]; simpl.
  - f_equal. lia.
  - rewrite IH by lia. f_equal. lia.
Qed.

Lemma stride2_from_elem (a : Z) (n : nat) (i : Z) :
  i ∈ stride2_from a n ↔ ∃ j : nat, (j < n)%nat ∧ i = a + 2 * Z.of_nat j.
Proof.
  rewrite list_elem_of_lookup. split.
  - intros [j Hj]. exists j.
    assert (j < n)%nat as Hlt.
    { apply lookup_lt_Some in Hj. by rewrite length_stride2_from in Hj. }
    rewrite stride2_from_lookup in Hj by done. split; [done | congruence].
  - intros (j & Hj & ->). exists j. by apply stride2_from_lookup.
Qed.

Lemma stride2_window (a : Z) : stride2 a (a + 79) = stride2_from a 40.
Proof. unfold stride2. by replace (a + 79 - a + 1) with 80 by lia. Qed.

(** *** Loops with an early return *)

Lemma forEach_app {S : Type} (body : Z → S → Go (Result S)) (l1 l2 : list Z) (s : S) :
  forEach body (l1 ++ l2) s = (s' ←? forEach body l1 s; forEach body l2 s').
Proof.
  revert s. induction l1 as [| i l1 IH]; intros s; simpl; [done |].
  unfold res_bind at 1 3. destruct (body i s) as [[s' | e] |]; simpl; [| done | done].
  apply IH.
Qed.

Lemma forEach_ext {S : Type} (body body' : Z → S → Go (Result S)) (idxs : list Z) (s : S) :
  (∀ i s, i ∈ idxs → body i s = body' i s) →
  forEach body idxs s = forEach body' idxs s.
Proof.
  revert s. induction idxs as [| i idxs IH]; intros s Hext; simpl; [done |].
  rewrite Hext by left. unfold res_bind.
  destruct (body' i s) as [[s' | e] |]; simpl; [| done | done].
  apply IH. intros j s0 Hj. apply Hext. by right.
Qed.

(** A loop without state: it passes when every body passes. *)
Lemma forEach_unit_Ok (body : Z → unit → Go (Result unit)) (idxs : list Z) :
  forEach body idxs () = Ret (Ok ()) ↔ Forall (λ i, body i () = Ret (Ok ())) idxs.
Proof.
  induction idxs as [| i idxs IH]; simpl.
  - split; [constructor | done].
  - unfold res_bind. rewrite Forall_cons, <- IH.
    destruct (body i ()) as [[[] | e] |]; cbn [go_bind].
    + split; [done | by intros [_ ?]].
    + split; [discriminate | intros [[=] _]].
    + split; [discriminate | intros [[=] _]].
Qed.

(** It returns the error of the first body that fails. *)
Lemma forEach_unit_Err (body : Z → unit → Go (Result unit))
    (pre post : list Z) (i : Z) (e : Error) :
  Forall (λ i, body i () = Ret (Ok ())) pre →
  body i () = Ret (Err e) →
  forEach body (pre ++ i :: post) () = Ret (Err e).
Proof.
  intros Hpre Hi. rewrite forEach_app.
  apply forEach_unit_Ok in Hpre. rewrite Hpre. simpl.
  unfold res_bind. by rewrite Hi.
Qed.

Lemma collect_Ok (check : Z → Go (Result Z)) (idxs bs : list Z) :
  collect check idxs = Ret (Ok bs) ↔ Forall2 (λ i b, check i = Ret (Ok b)) idxs bs.
Proof.
  revert bs. induction idxs as [| i idxs IH]; intros bs; simpl.
  - split.
    + intros [= <-]. constructor.
    + intros ->%Forall2_nil_inv_l. done.
  - unfold res_bind. split.
    + destruct (check i) as [[b | e] |] eqn:Hi; simpl; [| done | done].
      destruct (collect check idxs) as [[bs' | e] |] eqn:Hc; simpl; [| done | done].
      intros [= <-]. constructor; [done |]. by apply IH.
    + intros (b & bs' & Hb & Hbs & ->)%Forall2_cons_inv_l.
      rewrite Hb. simpl. apply IH in Hbs. rewrite Hbs. done.
Qed.

Lemma collect_Err (check : Z → Go (Result Z)) (pre post : list Z) (i : Z) (e : Error) :
  Forall (λ j, ∃ b, check j = Ret (Ok b)) pre →
  check i = Ret (Err e) →
  collect check (pre ++ i :: post) = Ret (Err e).
Proof.
  intros Hpre Hi. induction Hpre as [| j pre [b Hb] _ IH]; simpl.
  - unfold res_bind. by rewrite Hi.
  - unfold res_bind at 1. rewrite Hb. simpl. rewrite IH. done.
Qed.

(** The loop over the high pulses, started on zeros, stores the bits that
    [highCheck] gives. *)
Lemma highLoop_collect (levels : list Level) (durations : list Z) (idxs : list Z) :
  ∀ done : list Z,
    forEach (highBody levels durations) idxs
      (Z.of_nat (length done), done ++ replicate (length idxs) 0)
    = (bs ←? collect (highCheck levels durations) idxs;
       Ret (Ok (Z.of_nat (length done + length idxs), done ++ bs))).
Proof.
  induction idxs as [| i idxs IH]; intros done; simpl.
  - by rewrite Nat.add_0_r.
  - unfold res_bind at 1 3. unfold highBody at 1, highCheck at 1.
    destruct (index levels i) as [l |]; simpl; [| done].
    destruct (decide (l ≠ High)); simpl; [done |].
    destruct (index durations i) as [d |]; simpl; [| done].
    destruct (d >? 90 * Microsecond); simpl; [done |].
    assert (Hstore : ∀ b : Z,
      (if d >? 30 * Microsecond
       then store (done ++ 0 :: replicate (length idxs) 0) (Z.of_nat (length done)) 1
       else Ret (done ++ 0 :: replicate (length idxs) 0))
      = Ret ((done ++ [if d >? 30 * Microsecond then 1 else 0])
             ++ replicate (length idxs) 0)).
    { intros _. destruct (d >? 30 * Microsecond).
      - unfold store. rewrite length_app. simpl length. rewrite length_replicate.
        destruct (Z.ltb_spec (Z.of_nat (length done)) 0); [lia |].
        destruct (Z.leb_spec (Z.of_nat (length done + S (length idxs)))
                    (Z.of_nat (length done))); [lia |].
        simpl. rewrite Nat2Z.id.
        rewrite insert_app_r_alt, Nat.sub_diag by lia. simpl.
        by rewrite <- app_assoc.
      - by rewrite <- app_assoc. }
    rewrite (Hstore 0). simpl.
    replace (Z.of_nat (length done) + 1)
      with (Z.of_nat (length (done ++ [if d >? 30 * Microsecond then 1 else 0])))
      by (rewrite length_app; simpl; lia).
    rewrite IH. unfold res_bind.
    destruct (collect (highCheck levels durations) idxs) as [[bs | e] |]; simpl;
      [| done | done].
    rewrite length_app, <- app_assoc. simpl. do 4 f_equal. lia.
Qed.

(** The two loops over a window, in terms of the checks. *)
Lemma decodeWindow_collect (levels : list Level) (durations : list Z) (e : Z) :
  decodeWindow levels durations e
  = (bs ←? collect (highCheck levels durations) (stride2_from (e - 79) 40);
     _ ←? forEach (lowBody levels durations) (stride2_from (e - 78) 40) ();
     Ret (Ok bs)).
Proof.
  unfold decodeWindow.
  replace (stride2 (e - 79) e) with (stride2_from (e - 79) 40)
    by (rewrite <- stride2_window; f_equal; lia).
  replace (stride2 (e - 79 + 1) (e + 1)) with (stride2_from (e - 78) 40)
    by (rewrite <- stride2_window; f_equal; lia).
  pose proof (highLoop_collect levels durations (stride2_from (e - 79) 40) []) as H.
  rewrite length_stride2_from in H.
  change (Z.of_nat (length [])) with 0 in H.
  change ([] ++ replicate 40 0) with (replicate 40 0) in H.
  rewrite H. unfold res_bind.
  destruct (collect _ _) as [[bs | err] |]; reflexivity.
Qed.

Lemma collect_is_Err (check : Z → Go (Result Z)) (idxs : list Z) (e : Error) :
  collect check idxs = Ret (Err e) → ∃ i, i ∈ idxs ∧ check i = Ret (Err e).
Proof.
  induction idxs as [| i idxs IH]; simpl; [done |].
  unfold res_bind. destruct (check i) as [[b | e'] |] eqn:Hi; simpl; [| | done].
  - destruct (collect check idxs) as [[bs | e'] |]; simpl; [done | | done].
    intros [= ->]. destruct IH as (j & Hj & Hc); [done |].
    exists j. split; [by right | done].
  - intros [= ->]. exists i. split; [by left | done].
Qed.

Lemma forEach_is_Err {S : Type} (body : Z → S → Go (Result S)) (idxs : list Z)
    (s : S) (e : Error) :
  forEach body idxs s = Ret (Err e) → ∃ i s', i ∈ idxs ∧ body i s' = Ret (Err e).
Proof.
  revert s. induction idxs as [| i idxs IH]; intros s; simpl; [done |].
  unfold res_bind. destruct (body i s) as [[s' | e'] |] eqn:Hi; simpl; [| | done].
  - intros (j & s0 & Hj & Hb)%IH. exists j, s0. split; [by right | done].
  - intros [= ->]. exists i, s. split; [by left | done].
Qed.

Lemma highCheck_Ok (levels : list Level) (durations : list Z) (i b : Z) :
  highCheck levels durations i = Ret (Ok b) ↔
  ∃ d, index levels i = Ret High ∧ index durations i = Ret d
       ∧ d ≤ 90 * Microsecond ∧ b = if d >? 30 * Microsecond then 1 else 0.
Proof.
  unfold highCheck.
  destruct (index levels i) as [[] |]; simpl;
    [| | split; [discriminate | intros (d & [=] & _)]].
  - split; [done | intros (d & [=] & _)].
  - destruct (index durations i) as [d |]; simpl;
      [| split; [discriminate | intros (d & _ & [=] & _)]].
    destruct (Z.gtb_spec d (90 * Microsecond)).
    + split; [done |]. intros (d' & _ & [= <-] & ? & _). lia.
    + split.
      * intros [= <-]. exists d. done.
      * intros (d' & _ & [= <-] & _ & ->). done.
Qed.

Lemma lowBody_Ok (levels : list Level) (durations : list Z) (i : Z) :
  lowBody levels durations i () = Ret (Ok ()) ↔
  ∃ d, index levels i = Ret Low ∧ index durations i = Ret d
       ∧ 35 * Microsecond ≤ d ≤ 70 * Microsecond.
Proof.
  unfold lowBody.
  destruct (index levels i) as [[] |]; simpl;
    [| | split; [discriminate | intros (d & [=] & _)]].
  - destruct (index durations i) as [d |]; simpl;
      [| split; [discriminate | intros (d & _ & [=] & _)]].
    destruct (Z.gtb_spec d (70 * Microsecond)).
    + split; [done |]. intros (d' & _ & [= <-] & ?). lia.
    + destruct (Z.ltb_spec d (35 * Microsecond)).
      * split; [done |]. intros (d' & _ & [= <-] & ?). lia.
      * split; [| done]. intros _. exists d. done.
  - split; [done | intros (d & [=] & _)].
Qed.

Lemma decodeWindow_Ok (levels : list Level) (durations : list Z) (e : Z) (bits : list Z) :
  decodeWindow levels durations e = Ret (Ok bits) ↔
  collect (highCheck levels durations) (stride2_from (e - 79) 40) = Ret (Ok bits)
  ∧ forEach (lowBody levels durations) (stride2_from (e - 78) 40) () = Ret (Ok ()).
Proof.
  rewrite decodeWindow_collect. unfold res_bind.
  generalize (stride2_from (e - 79) 40) (stride2_from (e - 78) 40).
  intros hs ls.
  destruct (collect _ hs) as [[bs | err] |]; cbn [go_bind];
    [| split; [discriminate | intros [[=] _]] ..].
  destruct (forEach _ ls ()) as [[[] | err] |]; cbn [go_bind];
    [| split; [discriminate | intros [_ [=]]] ..].
  split; [intros [= ->]; done | intros [[= ->] _]; done].
Qed.

Lemma highCheck_not_LowNotFound (levels : list Level) (durations : list Z) (i : Z) :
  highCheck levels durations i ≠ Ret (Err ErrLowNotFound).
Proof.
  unfold highCheck.
  destruct (index levels i) as [l |]; cbn [go_bind]; [| done].
  destruct (decide (l ≠ High)); [done |].
  destruct (index durations i) as [d |]; cbn [go_bind]; [| done].
  destruct (d >? 90 * Microsecond); done.
Qed.

Lemma lowBody_not_LowNotFound (levels : list Level) (durations : list Z) (i : Z) (s : unit) :
  lowBody levels durations i s ≠ Ret (Err ErrLowNotFound).
Proof.
  unfold lowBody.
  destruct (index levels i) as [l |]; cbn [go_bind]; [| done].
  destruct (decide (l ≠ Low)); [done |].
  destruct (index durations i) as [d |]; cbn [go_bind]; [| done].
  destruct (d >? 70 * Microsecond); [done |].
  destruct (d <? 35 * Microsecond); done.
Qed.

Lemma decodeWindow_not_LowNotFound (levels : list Level) (durations : list Z) (e : Z) :
  decodeWindow levels durations e ≠ Ret (Err ErrLowNotFound).
Proof.
  rewrite decodeWindow_collect. unfold res_bind.
  destruct (collect _ _) as [[bs | err] |] eqn:Hc; cbn [go_bind].
  - clear Hc.
    destruct (forEach _ _ _) as [[[] | err] |] eqn:Hf; cbn [go_bind].
    + clear Hf. discriminate.
    + intros [= ->]. apply forEach_is_Err in Hf as (i & s & _ & Hb).
      by apply lowBody_not_LowNotFound in Hb.
    + clear Hf. discriminate.
  - intros [= ->]. apply collect_is_Err in Hc as (i & _ & Hb).
    by apply highCheck_not_LowNotFound in Hb.
  - clear Hc. discriminate.
Qed.

(** *** The search for the last low level *)

Lemma index_of_nat {A : Type} (l : list A) (i : nat) :
  index l (Z.of_nat i) = match l !! i with Some a => Ret a | None => Panic end.
Proof.
  unfold index. destruct (Z.ltb_spec (Z.of_nat i) 0); [lia |].
  by rewrite Nat2Z.id.
Qed.

Lemma lastLow_spec (levels : list Level) (i : nat) :
  (i < length levels)%nat → (79 ≤ i)%nat →
  (∃ e : nat, (79 ≤ e ≤ i)%nat ∧ levels !! e = Some Low
              ∧ (∀ j : nat, (e < j ≤ i)%nat → levels !! j = Some High)
              ∧ lastLow levels i = Ret (Ok (Z.of_nat e)))
  ∨ ((∀ j : nat, (79 ≤ j ≤ i)%nat → levels !! j = Some High)
     ∧ lastLow levels i = Ret (Err ErrLowNotFound)).
Proof.
  induction i as [| i IH]; intros Hlen Hi; [lia |].
  destruct (lookup_lt_is_Some_2 levels (S i) Hlen) as [l Hl].
  cbn [lastLow]. rewrite index_of_nat, Hl. cbn [go_bind].
  destruct l.
  - left. exists (S i). split; [lia |]. split; [done |]. split; [intros; lia | done].
  - destruct (Z.ltb_spec (Z.of_nat (S i)) 80).
    + right. split; [| done]. intros j Hj. by replace j with (S i) by lia.
    + destruct IH as [(e & He & Hlow & Hhigh & Hres) | [Hhigh Hres]]; [lia | lia | |].
      * left. exists e. split; [lia |]. split; [done |]. split; [| done].
        intros j Hj. destruct (decide (j = S i)) as [-> | ?]; [done |].
        apply Hhigh. lia.
      * right. split; [| done].
        intros j Hj. destruct (decide (j = S i)) as [-> | ?]; [done |].
        apply Hhigh. lia.
Qed.

Lemma findEndNumber_84 (levels : list Level) :
  length levels = 84%nat → findEndNumber levels = lastLow levels 83.
Proof. intros Hlen. unfold findEndNumber. rewrite Hlen. done. Qed.

Lemma index_agree {A : Type} (l l' : list A) (i : Z) :
  (0 ≤ i → l' !! Z.to_nat i = l !! Z.to_nat i) → index l' i = index l i.
Proof.
  intros H. unfold index. destruct (Z.ltb_spec i 0); [done |]. by rewrite H.
Qed.

(** The window that ends at [e] is all that the two loops read. *)
Lemma decodeWindow_local (levels levels' : list Level) (durations durations' : list Z)
    (e : nat) :
  (79 ≤ e)%nat →
  (∀ i : nat, (e - 79 ≤ i ≤ e)%nat →
     levels' !! i = levels !! i ∧ durations' !! i = durations !! i) →
  decodeWindow levels' durations' (Z.of_nat e) = decodeWindow levels durations (Z.of_nat e).
Proof.
  intros He Hagree.
  assert (Hidx : ∀ i, Z.of_nat e - 79 ≤ i ≤ Z.of_nat e →
            index levels' i = index levels i ∧ index durations' i = index durations i).
  { intros i Hi.
    destruct (Hagree (Z.to_nat i) ltac:(lia)) as [Hl Hd].
    split; by apply index_agree. }
  unfold decodeWindow.
  replace (stride2 (Z.of_nat e - 79) (Z.of_nat e))
    with (stride2_from (Z.of_nat e - 79) 40)
    by (rewrite <- stride2_window; f_equal; lia).
  replace (stride2 (Z.of_nat e - 79 + 1) (Z.of_nat e + 1))
    with (stride2_from (Z.of_nat e - 78) 40)
    by (rewrite <- stride2_window; f_equal; lia).
  rewrite (forEach_ext (highBody levels' durations') (highBody levels durations)).
  - rewrite (forEach_ext (lowBody levels' durations') (lowBody levels durations));
      [done |].
    intros i s (j & Hj & ->)%stride2_from_elem. unfold lowBody.
    destruct (Hidx (Z.of_nat e - 78 + 2 * Z.of_nat j) ltac:(lia)) as [-> ->]. done.
  - intros i s (j & Hj & ->)%stride2_from_elem. unfold highBody.
    destruct (Hidx (Z.of_nat e - 79 + 2 * Z.of_nat j) ltac:(lia)) as [-> ->]. done.
Qed.

(** C6, as amended. On 84 recorded levels the search for the last low level
    fails with "low level not found" exactly when none of the levels at the
    indices 79 to 83 is low; otherwise the decoder runs its two loops on the
    window of 80 pulses that ends at the last low level, whose index [e] is 79
    or more, and reads nothing outside the indices [e - 79 .. e]. *)
Theorem decodePulses_low_not_found (levels : list Level) (durations : list Z) :
  length levels = 84%nat →
  (decodePulses levels durations = Ret (Err ErrLowNotFound)
   ↔ ∀ j : nat, (79 ≤ j < 84)%nat → levels !! j = Some High)
  ∧ (∀ e : nat,
       (79 ≤ e < 84)%nat → levels !! e = Some Low →
       (∀ j : nat, (e < j < 84)%nat → levels !! j = Some High) →
       decodePulses levels durations = decodeWindow levels durations (Z.of_nat e)
       ∧ ∀ (levels' : list Level) (durations' : list Z),
           (∀ i : nat, (e - 79 ≤ i ≤ e)%nat →
              levels' !! i = levels !! i ∧ durations' !! i = durations !! i) →
           decodeWindow levels' durations' (Z.of_nat e)
           = decodeWindow levels durations (Z.of_nat e)).
Proof.
  intros Hlen.
  assert (Hfound : ∀ e : nat,
    (79 ≤ e < 84)%nat → levels !! e = Some Low →
    (∀ j : nat, (e < j < 84)%nat → levels !! j = Some High) →
    decodePulses levels durations = decodeWindow levels durations (Z.of_nat e)).
  { intros e He Hlow Hhigh. unfold decodePulses.
    rewrite findEndNumber_84 by done.
    destruct (lastLow_spec levels 83) as [(e' & He' & Hlow' & Hhigh' & ->) | [Hall _]];
      [lia | lia | |].
    - assert (e' = e) as ->.
      { destruct (Nat.lt_trichotomy e e') as [Hlt | [-> | Hgt]]; [| done |].
        - rewrite Hhigh in Hlow' by lia. done.
        - rewrite Hhigh' in Hlow by lia. done. }
      done.
    - rewrite Hall in Hlow by lia. done. }
  split; [split |].
  - intros Herr j Hj.
    destruct (lastLow_spec levels 83) as [(e & He & Hlow & Hhigh & _) | [Hall _]];
      [lia | lia | | apply Hall; lia].
    rewrite (Hfound e) in Herr; [| lia | done | intros; apply Hhigh; lia].
    by apply decodeWindow_not_LowNotFound in Herr.
  - intros Hall. unfold decodePulses. rewrite findEndNumber_84 by done.
    destruct (lastLow_spec levels 83) as [(e & He & Hlow & _) | [_ ->]];
      [lia | lia | | done].
    rewrite Hall in Hlow by lia. done.
  - intros e He Hlow Hhigh. split; [by apply Hfound |].
    intros levels' durations' Hagree. apply decodeWindow_local; [lia | done].
Qed.

(** *** One duration changed in an accepted capture *)

Lemma highCheck_insert_ne (levels : list Level) (durations : list Z) (i j d : Z) :
  0 ≤ j → i ≠ j →
  highCheck levels (<[Z.to_nat j := d]> durations) i = highCheck levels durations i.
Proof. intros Hj Hne. unfold highCheck. by rewrite index_insert_ne. Qed.

Lemma lowBody_insert_ne (levels : list Level) (durations : list Z) (i j d : Z) (s : unit) :
  0 ≤ j → i ≠ j →
  lowBody levels (<[Z.to_nat j := d]> durations) i s = lowBody levels durations i s.
Proof. intros Hj Hne. unfold lowBody. by rewrite index_insert_ne. Qed.

Lemma decodePulses_window (levels : list Level) (durations : list Z) (e : Z) :
  findEndNumber levels = Ret (Ok e) →
  decodePulses levels durations = decodeWindow levels durations e.
Proof. intros H. unfold decodePulses. by rewrite H. Qed.

Section OneDuration.

(** An accepted capture, the index [e] of its last low level, and one of the 40
    data bits. *)
Variables (levels : list Level) (durations bits : list Z) (e k : Z).
Hypothesis He : findEndNumber levels = Ret (Ok e).
Hypothesis Hbase : decodePulses levels durations = Ret (Ok bits).
Hypothesis Hk : 0 ≤ k < 40.

(** The duration of the [k]-th high pulse replaced by [d]. *)
Lemma decodePulses_high_duration (d : Z) :
  decodePulses levels (<[Z.to_nat (e - 79 + 2 * k) := d]> durations)
  = if d >? 90 * Microsecond then Ret (Err (ErrHighTooLong d))
    else Ret (Ok (<[Z.to_nat k := if d >? 30 * Microsecond then 1 else 0]> bits)).
Proof.
  pose proof Hbase as Hacc.
  rewrite (decodePulses_window levels durations e He) in Hacc.
  rewrite (decodePulses_window levels _ e He).
  apply decodeWindow_Ok in Hacc as [Hhigh Hlow].
  apply collect_Ok in Hhigh.
  set (hs := stride2_from (e - 79) 40) in *.
  set (ls := stride2_from (e - 78) 40) in *.
  set (hi := e - 79 + 2 * k).
  assert (Hhs : ∀ j : nat, (j < 40)%nat → hs !! j = Some (e - 79 + 2 * Z.of_nat j))
    by (intros; by apply stride2_from_lookup).
  assert (Hk' : hs !! Z.to_nat k = Some hi)
    by (rewrite Hhs by lia; unfold hi; f_equal; lia).
  destruct (Forall2_lookup_l _ _ _ _ _ Hhigh Hk') as (b & Hb & Hcheck).
  apply highCheck_Ok in Hcheck as (d0 & Hlv & Hdu & _ & _).
  assert (Hhi : 0 ≤ hi) by (by apply index_Ret in Hlv as [? _]).
  assert (Hcheck' : highCheck levels (<[Z.to_nat hi := d]> durations) hi
            = if d >? 90 * Microsecond then Ret (Err (ErrHighTooLong d))
              else Ret (Ok (if d >? 30 * Microsecond then 1 else 0))).
  { unfold highCheck. rewrite Hlv. cbn [go_bind].
    destruct (decide (High ≠ High)); [done |].
    rewrite (index_insert_eq _ _ _ _ Hdu). done. }
  assert (Hlow' : forEach (lowBody levels (<[Z.to_nat hi := d]> durations)) ls ()
            = Ret (Ok ())).
  { rewrite <- Hlow. apply forEach_ext.
    intros i s (j & Hj & ->)%stride2_from_elem.
    apply lowBody_insert_ne; [done | unfold hi; lia]. }
  destruct (d >? 90 * Microsecond) eqn:Hd.
  - rewrite decodeWindow_collect. fold hs.
    rewrite <- (take_drop_middle hs (Z.to_nat k) hi Hk').
    rewrite (collect_Err _ _ _ _ (ErrHighTooLong d)); [done | | done].
    apply Forall_forall. intros i Hi.
    apply list_elem_of_lookup in Hi as [j Hj].
    apply lookup_take_Some in Hj as [Hj Hlt].
    destruct (Forall2_lookup_l _ _ _ _ _ Hhigh Hj) as (b' & _ & Hc).
    exists b'. rewrite highCheck_insert_ne; [done | done |].
    rewrite Hhs in Hj by lia. injection Hj as <-. unfold hi. lia.
  - apply decodeWindow_Ok. fold hs ls. split; [| done].
    apply collect_Ok. apply Forall2_same_length_lookup. split.
    + rewrite length_insert. by eapply Forall2_length.
    + intros j i y Hi Hy.
      assert (j < 40)%nat as Hj.
      { apply lookup_lt_Some in Hi. unfold hs in Hi.
        by rewrite length_stride2_from in Hi. }
      destruct (decide (j = Z.to_nat k)) as [-> | Hne].
      * rewrite Hk' in Hi. injection Hi as <-.
        rewrite list_lookup_insert_eq in Hy by (by eapply lookup_lt_Some).
        injection Hy as <-. done.
      * rewrite list_lookup_insert_ne in Hy by done.
        rewrite highCheck_insert_ne.
        -- by eapply (Forall2_lookup_lr _ _ _ _ _ _ Hhigh).
        -- done.
        -- rewrite Hhs in Hi by done. injection Hi as <-. unfold hi. lia.
Qed.

(** The duration of the [k]-th low pulse replaced by [d]. *)
Lemma decodePulses_low_duration (d : Z) :
  decodePulses levels (<[Z.to_nat (e - 78 + 2 * k) := d]> durations)
  = if d >? 70 * Microsecond then Ret (Err (ErrLowTooLong d))
    else if d <? 35 * Microsecond then Ret (Err (ErrLowTooShort d))
    else Ret (Ok bits).
Proof.
  pose proof Hbase as Hacc.
  rewrite (decodePulses_window levels durations e He) in Hacc.
  rewrite (decodePulses_window levels _ e He).
  apply decodeWindow_Ok in Hacc as [Hhigh Hlow].
  apply forEach_unit_Ok in Hlow.
  set (hs := stride2_from (e - 79) 40) in *.
  set (ls := stride2_from (e - 78) 40) in *.
  set (lo := e - 78 + 2 * k).
  assert (Hls : ∀ j : nat, (j < 40)%nat → ls !! j = Some (e - 78 + 2 * Z.of_nat j))
    by (intros; by apply stride2_from_lookup).
  assert (Hk' : ls !! Z.to_nat k = Some lo)
    by (rewrite Hls by lia; unfold lo; f_equal; lia).
  pose proof (proj1 (Forall_lookup _ _) Hlow _ _ Hk') as Hbody.
  apply lowBody_Ok in Hbody as (d0 & Hlv & Hdu & _).
  assert (Hlo : 0 ≤ lo) by (by apply index_Ret in Hlv as [? _]).
  assert (Hbody' : lowBody levels (<[Z.to_nat lo := d]> durations) lo ()
            = if d >? 70 * Microsecond then Ret (Err (ErrLowTooLong d))
              else if d <? 35 * Microsecond then Ret (Err (ErrLowTooShort d))
              else Ret (Ok ())).
  { unfold lowBody. rewrite Hlv. cbn [go_bind].
    destruct (decide (Low ≠ Low)); [done |].
    rewrite (index_insert_eq _ _ _ _ Hdu). done. }
  assert (Hhigh' : collect (highCheck levels (<[Z.to_nat lo := d]> durations)) hs
            = Ret (Ok bits)).
  { apply collect_Ok. apply collect_Ok in Hhigh.
    apply Forall2_same_length_lookup. split; [by eapply Forall2_length |].
    intros j i y Hi Hy.
    assert (j < 40)%nat as Hj.
    { apply lookup_lt_Some in Hi. unfold hs in Hi.
      by rewrite length_stride2_from in Hi. }
    rewrite highCheck_insert_ne.
    - by eapply (Forall2_lookup_lr _ _ _ _ _ _ Hhigh).
    - done.
    - unfold hs in Hi. rewrite stride2_from_lookup in Hi by done.
      injection Hi as <-. unfold lo. lia. }
  assert (Hpre : Forall (λ i, lowBody levels (<[Z.to_nat lo := d]> durations) i ()
                              = Ret (Ok ())) (take (Z.to_nat k) ls)).
  { apply Forall_forall. intros i Hi.
    apply list_elem_of_lookup in Hi as [j Hj].
    apply lookup_take_Some in Hj as [Hj Hlt].
    rewrite lowBody_insert_ne.
    - by apply (proj1 (Forall_lookup _ _) Hlow _ _ Hj).
    - done.
    - rewrite Hls in Hj by lia. injection Hj as <-. unfold lo. lia. }
  rewrite decodeWindow_collect. fold hs ls. rewrite Hhigh'.
  unfold res_bind at 1. cbn [go_bind].
  destruct (d >? 70 * Microsecond) eqn:Hd1; [| destruct (d <? 35 * Microsecond) eqn:Hd2].
  - rewrite <- (take_drop_middle ls (Z.to_nat k) lo Hk').
    by rewrite (forEach_unit_Err _ _ _ _ (ErrLowTooLong d)).
  - rewrite <- (take_drop_middle ls (Z.to_nat k) lo Hk').
    by rewrite (forEach_unit_Err _ _ _ _ (ErrLowTooShort d)).
  - assert (forEach (lowBody levels (<[Z.to_nat lo := d]> durations)) ls () = Ret (Ok ()))
      as ->; [| done].
    apply forEach_unit_Ok. apply Forall_lookup. intros j i Hi.
    assert (j < 40)%nat as Hj.
    { apply lookup_lt_Some in Hi. unfold ls in Hi.
      by rewrite length_stride2_from in Hi. }
    destruct (decide (i = lo)) as [-> | Hne]; [done |].
    rewrite lowBody_insert_ne by done.
    by apply (proj1 (Forall_lookup _ _) Hlow _ _ Hi).
Qed.

End OneDuration.

(** C5. In a capture that the decoder accepts, replace the duration of the
    [k]-th data pulse: a high pulse of 30 microseconds gives bit 0, of 31
    microseconds bit 1; 90 microseconds is accepted (bit 1) and 91
    microseconds is the "high level duration too long" error; a low pulse of 35
    or of 70 microseconds is accepted, 34 microseconds is the "low level
    duration too short" error and 71 microseconds the "low level duration too
    long" error. *)
Theorem decodePulses_duration_boundaries
    (levels : list Level) (durations bits : list Z) (e k : Z) :
  findEndNumber levels = Ret (Ok e) →
  decodePulses levels durations = Ret (Ok bits) →
  0 ≤ k < 40 →
  let hi := Z.to_nat (e - 79 + 2 * k) in
  let lo := Z.to_nat (e - 78 + 2 * k) in
  decodePulses levels (<[hi := 30 * Microsecond]> durations)
  = Ret (Ok (<[Z.to_nat k := 0]> bits))
  ∧ decodePulses levels (<[hi := 31 * Microsecond]> durations)
    = Ret (Ok (<[Z.to_nat k := 1]> bits))
  ∧ decodePulses levels (<[hi := 90 * Microsecond]> durations)
    = Ret (Ok (<[Z.to_nat k := 1]> bits))
  ∧ decodePulses levels (<[hi := 91 * Microsecond]> durations)
    = Ret (Err (ErrHighTooLong (91 * Microsecond)))
  ∧ decodePulses levels (<[lo := 35 * Microsecond]> durations) = Ret (Ok bits)
  ∧ decodePulses levels (<[lo := 34 * Microsecond]> durations)
    = Ret (Err (ErrLowTooShort (34 * Microsecond)))
  ∧ decodePulses levels (<[lo := 70 * Microsecond]> durations) = Ret (Ok bits)
  ∧ decodePulses levels (<[lo := 71 * Microsecond]> durations)
    = Ret (Err (ErrLowTooLong (71 * Microsecond))).
Proof.
  intros He Hbase Hk hi lo. subst hi lo.
  repeat split.
  - by rewrite (decodePulses_high_duration _ _ bits _ _ He Hbase Hk).
  - by rewrite (decodePulses_high_duration _ _ bits _ _ He Hbase Hk).
  - by rewrite (decodePulses_high_duration _ _ bits _ _ He Hbase Hk).
  - by rewrite (decodePulses_high_duration _ _ bits _ _ He Hbase Hk).
  - by rewrite (decodePulses_low_duration _ _ bits _ _ He Hbase Hk).
  - by rewrite (decodePulses_low_duration _ _ bits _ _ He Hbase Hk).
  - by rewrite (decodePulses_low_duration _ _ bits _ _ He Hbase Hk).
  - by rewrite (decodePulses_low_duration _ _ bits _ _ He Hbase Hk).
Qed.

(** The example capture, whose last low level is at index 83, and its fourth
    data bit. *)
Lemma decodePulses_duration_boundaries_witness :
  let hi := Z.to_nat (83 - 79 + 2 * 3) in
  let lo := Z.to_nat (83 - 78 + 2 * 3) in
  decodePulses exampleLevels (<[hi := 30 * Microsecond]> exampleDurations)
  = Ret (Ok (<[Z.to_nat 3 := 0]> exampleFrame))
  ∧ decodePulses exampleLevels (<[hi := 31 * Microsecond]> exampleDurations)
    = Ret (Ok (<[Z.to_nat 3 := 1]> exampleFrame))
  ∧ decodePulses exampleLevels (<[hi := 90 * Microsecond]> exampleDurations)
    = Ret (Ok (<[Z.to_nat 3 := 1]> exampleFrame))
  ∧ decodePulses exampleLevels (<[hi := 91 * Microsecond]> exampleDurations)
    = Ret (Err (ErrHighTooLong (91 * Microsecond)))
  ∧ decodePulses exampleLevels (<[lo := 35 * Microsecond]> exampleDurations)
    = Ret (Ok exampleFrame)
  ∧ decodePulses exampleLevels (<[lo := 34 * Microsecond]> exampleDurations)
    = Ret (Err (ErrLowTooShort (34 * Microsecond)))
  ∧ decodePulses exampleLevels (<[lo := 70 * Microsecond]> exampleDurations)
    = Ret (Ok exampleFrame)
  ∧ decodePulses exampleLevels (<[lo := 71 * Microsecond]> exampleDurations)
    = Ret (Err (ErrLowTooLong (71 * Microsecond))).
Proof.
  apply (decodePulses_duration_boundaries exampleLevels exampleDurations
           exampleFrame 83 3).
  - vm_compute. reflexivity.
  - vm_compute. reflexivity.
  - lia.
Defined.

(** The capture of [earlySensor] has exactly one more pulse than the 79 that
    the error message of the search speaks of. *)
Lemma decodePulses_low_not_found_witness :
  let levels := (sample (earlySensor exampleFrame)
                   (worldAt 0 (earlySensor exampleFrame))).1.1.2 in
  let durations := (sample (earlySensor exampleFrame)
                      (worldAt 0 (earlySensor exampleFrame))).1.2 in
  (decodePulses levels durations = Ret (Err ErrLowNotFound)
   ↔ ∀ j : nat, (79 ≤ j < 84)%nat → levels !! j = Some High)
  ∧ (∀ e : nat,
       (79 ≤ e < 84)%nat → levels !! e = Some Low →
       (∀ j : nat, (e < j < 84)%nat → levels !! j = Some High) →
       decodePulses levels durations = decodeWindow levels durations (Z.of_nat e)
       ∧ ∀ (levels' : list Level) (durations' : list Z),
           (∀ i : nat, (e - 79 ≤ i ≤ e)%nat →
              levels' !! i = levels !! i ∧ durations' !! i = durations !! i) →
           decodeWindow levels' durations' (Z.of_nat e)
           = decodeWindow levels durations (Z.of_nat e)).
Proof.
  apply (decodePulses_low_not_found _ _).
  vm_compute. reflexivity.
Defined.

(** C6 as stated fails: in the capture of [earlySensor] no level at an index of
    80 or more is low, and the decoder does not return "low level not found":
    it finds the last low level at index 79 and decodes the frame. *)
Lemma decodePulses_low_at_79_counterexample :
  let levels := (sample (earlySensor exampleFrame)
                   (worldAt 0 (earlySensor exampleFrame))).1.1.2 in
  let durations := (sample (earlySensor exampleFrame)
                      (worldAt 0 (earlySensor exampleFrame))).1.2 in
  length levels = 84%nat
  ∧ drop 80 levels = [High; High; High; High]
  ∧ levels !! 79%nat = Some Low
  ∧ decodePulses levels durations = Ret (Ok exampleFrame)
  ∧ decodePulses levels durations ≠ Ret (Err ErrLowNotFound).
Proof.
  cbv zeta. repeat split; try (vm_compute; reflexivity).
  intros H. vm_compute in H. discriminate H.
Qed.

(** ** readBits *)

Lemma sample_fold (p : PinScript) (n : nat) :
  ∀ (a : nat) (l : Level) (ls : list Level) (ds : list Z) (w : World),
    ∃ (l' : Level) (ls' : list Level) (ds' : list Z) (w' : World) (evs : list Event),
      foldl (sampleStep p) (l, ls, ds, w) (seq a n) = (l', ls', ds', w')
      ∧ length ls' = (length ls + n)%nat
      ∧ length ds' = (length ds + n)%nat
      ∧ trace w' = evs ++ trace w
      ∧ Forall notSetLastRead evs
      ∧ gcPercent w' = gcPercent w
      ∧ pinScript w' = pinScript w
      ∧ captures w' = captures w
      ∧ selectStop w' = selectStop w
      ∧ ((∀ i, 0 ≤ (slot p i).1) → now w ≤ now w').
Proof.
  induction n as [| n IH]; intros a l ls ds w.
  - exists l, ls, ds, w, []. simpl. repeat split; try done; lia.
  - simpl. destruct (slot p a) as [d lv] eqn:Hslot.
    destruct (IH (S a) lv (ls ++ [l]) (ds ++ [d]) (emit EvPinRead (advance d w)))
      as (l' & ls' & ds' & w' & evs & Hfold & Hls & Hds & Htr & Hevs & Hgc & Hpin
          & Hcap & Hsel & Hnow).
    exists l', ls', ds', w', (evs ++ [EvPinRead]).
    split; [done |]. rewrite !length_app in *. simpl in *.
    repeat split; try done; try lia.
    + by rewrite <- app_assoc.
    + apply Forall_app. split; [done |]. by repeat constructor.
    + intros Hpos. specialize (Hnow Hpos). specialize (Hpos a).
      rewrite Hslot in Hpos. simpl in Hpos. lia.
Qed.

Lemma index_in_range {A : Type} (l : list A) (i : Z) :
  0 ≤ i < Z.of_nat (length l) → ∃ a, index l i = Ret a.
Proof.
  intros Hi. destruct (lookup_lt_is_Some_2 l (Z.to_nat i)) as [a Ha]; [lia |].
  exists a. apply index_Ret. split; [lia | done].
Qed.

(** Inside the bounds of the two slices every check returns. *)
Lemma highCheck_total (levels : list Level) (durations : list Z) (i : Z) :
  0 ≤ i < Z.of_nat (length levels) → 0 ≤ i < Z.of_nat (length durations) →
  ∃ r, highCheck levels durations i = Ret r
       ∧ ∀ b, r = Ok b → isBit b.
Proof.
  intros [l Hl]%index_in_range [d Hd]%index_in_range.
  unfold highCheck. rewrite Hl, Hd. cbn [go_bind].
  destruct (decide (l ≠ High)); [by eexists |].
  destruct (d >? 90 * Microsecond); [by eexists |].
  eexists. split; [done |]. intros b [= <-].
  unfold isBit. destruct (d >? 30 * Microsecond); lia.
Qed.

Lemma lowBody_total (levels : list Level) (durations : list Z) (i : Z) (s : unit) :
  0 ≤ i < Z.of_nat (length levels) → 0 ≤ i < Z.of_nat (length durations) →
  ∃ r, lowBody levels durations i s = Ret r.
Proof.
  intros [l Hl]%index_in_range [d Hd]%index_in_range.
  unfold lowBody. rewrite Hl, Hd. cbn [go_bind].
  destruct (decide (l ≠ Low)); [by eexists |].
  destruct (d >? 70 * Microsecond); [by eexists |].
  destruct (d <? 35 * Microsecond); by eexists.
Qed.

Lemma collect_total (check : Z → Go (Result Z)) (idxs : list Z) :
  Forall (λ i, ∃ r, check i = Ret r ∧ ∀ b, r = Ok b → isBit b) idxs →
  ∃ r, collect check idxs = Ret r
       ∧ ∀ bs, r = Ok bs → length bs = length idxs ∧ Forall isBit bs.
Proof.
  induction 1 as [| i idxs (r & Hr & Hb) _ (rs & Hrs & Hbs)]; simpl.
  - eexists. split; [done |]. intros bs [= <-]. done.
  - unfold res_bind. rewrite Hr. cbn [go_bind].
    destruct r as [b | e]; [| by eexists].
    rewrite Hrs. cbn [go_bind].
    destruct rs as [bs | e]; [| by eexists].
    eexists. split; [done |]. intros bs' [= <-].
    destruct (Hbs bs eq_refl) as [Hlen Hall].
    split; [simpl; by rewrite Hlen |].
    constructor; [by apply Hb | done].
Qed.

Lemma forEach_unit_total (body : Z → unit → Go (Result unit)) (idxs : list Z) :
  Forall (λ i, ∃ r, body i () = Ret r) idxs →
  ∃ r, forEach body idxs () = Ret r.
Proof.
  induction 1 as [| i idxs (r & Hr) _ (rs & Hrs)]; simpl; [by eexists |].
  unfold res_bind. rewrite Hr. cbn [go_bind].
  destruct r as [[] | e]; by eexists.
Qed.

(** On 84 recorded pulses the decoder returns, and what it returns without an
    error is 40 bits. *)
Lemma decodePulses_total (levels : list Level) (durations : list Z) :
  length levels = 84%nat → length durations = 84%nat →
  ∃ r, decodePulses levels durations = Ret r
       ∧ ∀ bits, r = Ok bits → length bits = 40%nat ∧ Forall isBit bits.
Proof.
  intros Hlv Hdu. unfold decodePulses. rewrite findEndNumber_84 by done.
  destruct (lastLow_spec levels 83) as [(e & He & _ & _ & ->) | [_ ->]]; [lia | lia | |].
  - unfold res_bind at 1. cbn [go_bind]. rewrite decodeWindow_collect.
    destruct (collect_total (highCheck levels durations)
                (stride2_from (Z.of_nat e - 79) 40)) as (r & Hr & Hbits).
    { apply Forall_forall. intros i (j & Hj & ->)%stride2_from_elem.
      apply highCheck_total; lia. }
    destruct (forEach_unit_total (lowBody levels durations)
                (stride2_from (Z.of_nat e - 78) 40)) as (r' & Hr').
    { apply Forall_forall. intros i (j & Hj & ->)%stride2_from_elem.
      apply lowBody_total; lia. }
    unfold res_bind. rewrite Hr. cbn [go_bind].
    destruct r as [bs | err]; [| eexists; split; [done | done]].
    rewrite Hr'. cbn [go_bind].
    destruct r' as [[] | err]; [| eexists; split; [done | done]].
    eexists. split; [done |]. intros bits [= <-].
    destruct (Hbits bs eq_refl) as [Hlen Hall].
    by rewrite length_stride2_from in Hlen.
  - unfold res_bind. cbn [go_bind]. eexists. split; [done | done].
Qed.

(** [bitsToValues] returns on every list of 40 bits. *)
Lemma bitsToValues_total (dht : DHT) (bits : list Z) :
  length bits = 40%nat → Forall isBit bits → ∃ v, bitsToValues dht bits = Ret v.
Proof.
  intros Hlen Hbits.
  destruct (frame_surj bits Hlen Hbits) as (h & t & c & Hh & Ht & Hc & ->).
  eexists. by apply bitsToValues_frame.
Qed.

(** What one call of [readBits] does, in either build. *)
Lemma readBits_spec (b : Build) (dht : DHT) (w : World) :
  ∃ (r : Result (list Z)) (w' : World) (evs : list Event),
    readBits b dht w = Ret (r, setLastRead (now w) dht, w')
    ∧ trace w' = evs ++ EvSetLastRead (now w) :: trace w
    ∧ Forall notSetLastRead evs
    ∧ (∀ bits, r = Ok bits → length bits = 40%nat ∧ Forall isBit bits)
    ∧ pinScript w' = pinScript w
    ∧ selectStop w' = selectStop w
    ∧ (wellTimed w → now w ≤ now w').
Proof.
  destruct b; cbn [readBits].
  - unfold readBits_pin.
    set (p := pinScript w (captures w)).
    destruct (outLowErr p) as [e1 |].
    { eexists _, _, [EvPinOut High; EvPinOut Low; EvSetGCPercent (-1)].
      split; [done |]. cbn.
      repeat split; try done; try lia.
      repeat constructor; by intros t. }
    destruct (inErr p) as [e2 |].
    { eexists _, _, [EvPinOut High; EvPinIn; EvSleep Millisecond;
                     EvPinOut Low; EvSetGCPercent (-1)].
      split; [done |]. cbn.
      repeat split; try done; try (unfold Millisecond; lia).
      repeat constructor; by intros t. }
    match goal with
    | |- context [sample p ?w0] =>
        destruct (sample_fold p 84 0 (firstLevel p) [] [] w0)
          as (l' & ls & ds & w1 & evs & Hfold & Hls & Hds & Htr & Hevs & Hgc
              & Hpin & Hcap & Hsel & Hnow);
        unfold sample; rewrite Hfold
    end.
    simpl in Hls, Hds, Htr, Hpin, Hsel, Hnow.
    destruct (decodePulses_total ls ds Hls Hds) as (r & Hr & Hbits).
    destruct (outHighErr p) as [e3 |].
    + eexists _, _, ([EvPinOut High; EvSetGCPercent (gcPercent w)] ++ evs
                     ++ [EvPinRead; EvPinIn; EvSleep Millisecond; EvPinOut Low;
                         EvSetGCPercent (-1)]).
      split; [done |]. cbn. rewrite Htr, <- app_assoc. cbn.
      repeat split; try done.
      * repeat constructor; try (by intros t).
        apply Forall_app. split; [done |]. repeat constructor; by intros t.
      * intros Hwt. unfold Millisecond in *. specialize (Hnow (Hwt _)). lia.
    + rewrite Hr. cbn [go_bind].
      eexists _, _, ([EvPinOut High; EvSetGCPercent (gcPercent w)] ++ evs
                     ++ [EvPinRead; EvPinIn; EvSleep Millisecond; EvPinOut Low;
                         EvSetGCPercent (-1)]).
      split; [done |]. cbn. rewrite Htr, <- app_assoc. cbn.
      repeat split; try done.
      * repeat constructor; try (by intros t).
        apply Forall_app. split; [done |]. repeat constructor; by intros t.
      * by apply Hbits.
      * by apply Hbits.
      * intros Hwt. unfold Millisecond in *. specialize (Hnow (Hwt _)). lia.
  - unfold readBits_windows. eexists _, _, [].
    split; [done |]. cbn.
    repeat split; try done; try lia.
    + match goal with H : Ok _ = Ok _ |- _ => injection H as <- end.
      done.
    + match goal with H : Ok _ = Ok _ |- _ => injection H as <- end.
      apply Forall_forall. intros x Hx. left.
      by repeat (apply elem_of_cons in Hx as [-> | Hx]; [done |]);
        apply elem_of_nil in Hx.
Qed.

(** ** Read *)

(** What one call of [Read] does: it sleeps, then [readBits] writes the time
    the sleep ended at into [lastRead]; it touches nothing else of the handle. *)
Lemma Read_spec (b : Build) (dht : DHT) (w : World) :
  ∃ (v : Values) (w' : World) (evs : list Event),
    Read b dht w
    = Ret (v, setLastRead (now w + Z.max 0 (sleepTime dht w)) dht, w')
    ∧ trace w'
      = evs ++ EvSetLastRead (now w + Z.max 0 (sleepTime dht w))
            :: EvSleep (sleepTime dht w) :: trace w
    ∧ Forall notSetLastRead evs
    ∧ pinScript w' = pinScript w
    ∧ selectStop w' = selectStop w
    ∧ (wellTimed w → now w ≤ now w').
Proof.
  unfold Read.
  destruct (readBits_spec b dht (sleep (sleepTime dht w) w))
    as (r & w' & evs & Hread & Htr & Hevs & Hbits & Hpin & Hsel & Hnow).
  rewrite Hread. cbn [go_bind]. cbn in Htr, Hpin, Hsel, Hnow.
  assert (Hnow' : wellTimed w → now w ≤ now w').
  { intros Hwt. specialize (Hnow Hwt). lia. }
  destruct r as [bits | e].
  - destruct (Hbits bits eq_refl) as [Hlen Hall].
    destruct (bitsToValues_total (setLastRead (now (sleep (sleepTime dht w) w)) dht)
                bits Hlen Hall) as [v Hv].
    rewrite Hv. cbn [go_bind]. by exists v, w', evs.
  - by eexists _, w', evs.
Qed.

Lemma sleepTimeOf_min (n : Z) :
  0 ≤ n →
  sleepTimeOf n = Z.min (2 * Second + n * (500 * Millisecond)) (30 * Second).
Proof.
  intros Hn. unfold sleepTimeOf, Second, Millisecond.
  destruct (Z.ltb_spec n 57).
  - rewrite (wrap64_id (n * 500)) by int64_lia.
    rewrite (wrap64_id (n * 500 * 1000000))
      by int64_lia.
    rewrite wrap64_id by int64_lia.
    lia.
  - lia.
Qed.

Lemma sleepTime_elapsed (dht : DHT) (w : World) :
  0 ≤ numErrors dht → 0 ≤ now w - lastRead dht < 2 ^ 63 →
  sleepTime dht w
  = Z.min (2 * Second + numErrors dht * (500 * Millisecond)) (30 * Second)
    - (now w - lastRead dht).
Proof.
  intros Hn Hel. unfold sleepTime, since. rewrite sleepTimeOf_min by done.
  change (2 ^ 63) with 9223372036854775808 in *.
  rewrite (Z.min_r _ (now w - lastRead dht)) by lia.
  rewrite Z.max_r by lia.
  unfold Second, Millisecond.
  apply wrap64_id. int64_lia.
Qed.

(** C4. For a count of consecutive failures [numErrors >= 0] and a last read
    not in the future, the interval is [min (2 s + numErrors * 0.5 s) (30 s)];
    it is 2.0 s, 2.5 s and 3.0 s for the counts 0, 1 and 2, it is 30 s from the
    count 56 on and never more; [Read] hands the interval less the time since
    the last read to [time.Sleep], so that the capture starts
    [max 0 (interval - elapsed)] later. *)
Theorem Read_minimum_interval (b : Build) (dht : DHT) (w : World) :
  0 ≤ numErrors dht → 0 ≤ now w - lastRead dht < 2 ^ 63 →
  let interval :=
    Z.min (2 * Second + numErrors dht * (500 * Millisecond)) (30 * Second) in
  let elapsed := now w - lastRead dht in
  sleepTimeOf (numErrors dht) = interval
  ∧ interval ≤ 30 * Second
  ∧ (56 ≤ numErrors dht → interval = 30 * Second)
  ∧ sleepTimeOf 0 = 2 * Second
  ∧ sleepTimeOf 1 = 2500 * Millisecond
  ∧ sleepTimeOf 2 = 3 * Second
  ∧ ∃ (v : Values) (dht' : DHT) (w' : World) (evs : list Event),
      Read b dht w = Ret (v, dht', w')
      ∧ trace w'
        = evs ++ EvSetLastRead (now w + Z.max 0 (interval - elapsed))
              :: EvSleep (interval - elapsed) :: trace w
      ∧ lastRead dht' = now w + Z.max 0 (interval - elapsed).
Proof.
  intros Hn Hel interval elapsed.
  split; [by apply sleepTimeOf_min |].
  split; [apply Z.le_min_r |].
  split; [intros H56; unfold interval, Second, Millisecond; lia |].
  do 3 (split; [done |]).
  destruct (Read_spec b dht w) as (v & w' & evs & Hread & Htr & _).
  rewrite sleepTime_elapsed in Hread, Htr by done.
  by eexists v, _, w', evs.
Qed.

Lemma Read_minimum_interval_witness :
  let dht := mkDHT Celsius "" 3 1000000000 in
  let w := worldAt 2500000000 (sensor exampleFrame) in
  let interval := Z.min (2 * Second + 3 * (500 * Millisecond)) (30 * Second) in
  let elapsed := 2500000000 - 1000000000 in
  sleepTimeOf 3 = interval
  ∧ interval ≤ 30 * Second
  ∧ (56 ≤ 3 → interval = 30 * Second)
  ∧ sleepTimeOf 0 = 2 * Second
  ∧ sleepTimeOf 1 = 2500 * Millisecond
  ∧ sleepTimeOf 2 = 3 * Second
  ∧ ∃ (v : Values) (dht' : DHT) (w' : World) (evs : list Event),
      Read NotWindows dht w = Ret (v, dht', w')
      ∧ trace w'
        = evs ++ EvSetLastRead (2500000000 + Z.max 0 (interval - elapsed))
              :: EvSleep (interval - elapsed) :: trace w
      ∧ lastRead dht' = 2500000000 + Z.max 0 (interval - elapsed).
Proof.
  apply (Read_minimum_interval NotWindows (mkDHT Celsius "" 3 1000000000)
           (worldAt 2500000000 (sensor exampleFrame))).
  - vm_compute. congruence.
  - vm_compute. split; congruence.
Defined.

(** C3: the code at a failing read. A handle fresh from [NewDHT] reads a pin
    that refuses [Out(gpio.Low)]: [Read] returns the error and the counter of
    consecutive failures is still 0; on any handle and in any world [Read]
    returns with [numErrors] as it found it. *)
Theorem Read_leaves_numErrors :
  (∃ (dht' : DHT) (w' : World),
     Read NotWindows (newHandle Celsius "" 0) (worldAt 0 deadPin)
     = Ret (mkValues 0 0 (Some (ErrPinOutLow "no pin")), dht', w')
     ∧ numErrors dht' = 0)
  ∧ ∀ (b : Build) (dht : DHT) (w : World),
      ∃ (v : Values) (dht' : DHT) (w' : World),
        Read b dht w = Ret (v, dht', w') ∧ numErrors dht' = numErrors dht.
Proof.
  split.
  - eexists _, _. split; [vm_compute; reflexivity | done].
  - intros b dht w. destruct (Read_spec b dht w) as (v & w' & evs & Hread & _).
    by eexists v, _, w'.
Qed.

(** C8. In both builds [readBits] first writes the current time into
    [lastRead], before any operation on the pin, and writes it once; whatever
    the capture then gives, the handle it leaves has that time as [lastRead].
    So each capture started by [Read] starts two seconds or more after the
    capture before it, failed or not. *)
Theorem readBits_sets_lastRead_first (b : Build) (dht : DHT) (w : World) :
  (∃ (r : Result (list Z)) (dht' : DHT) (w' : World) (evs : list Event),
     readBits b dht w = Ret (r, dht', w')
     ∧ lastRead dht' = now w
     ∧ trace w' = evs ++ EvSetLastRead (now w) :: trace w
     ∧ Forall notSetLastRead evs)
  ∧ (0 ≤ numErrors dht → 0 ≤ now w - lastRead dht < 2 ^ 63 →
     ∃ (v : Values) (dht' : DHT) (w' : World),
       Read b dht w = Ret (v, dht', w')
       ∧ lastRead dht + 2 * Second ≤ lastRead dht').
Proof.
  split.
  - destruct (readBits_spec b dht w) as (r & w' & evs & Hread & Htr & Hevs & _).
    by eexists r, _, w', evs.
  - intros Hn Hel.
    destruct (Read_spec b dht w) as (v & w' & evs & Hread & _).
    eexists v, _, w'. split; [done |]. cbn [lastRead setLastRead].
    rewrite sleepTime_elapsed by done.
    unfold Second, Millisecond. lia.
Qed.

Lemma readBits_sets_lastRead_first_witness :
  ∃ (v : Values) (dht' : DHT) (w' : World),
    Read NotWindows (newHandle Celsius "" 0) (worldAt 0 deadPin) = Ret (v, dht', w')
    ∧ lastRead (newHandle Celsius "" 0) + 2 * Second ≤ lastRead dht'.
Proof.
  apply (readBits_sets_lastRead_first NotWindows (newHandle Celsius "" 0)
           (worldAt 0 deadPin)).
  - vm_compute. congruence.
  - vm_compute. split; congruence.
Defined.

(** ** ReadRetry *)

Lemma Read_total (b : Build) (dht : DHT) (w : World) :
  ∃ (v : Values) (dht' : DHT) (w' : World), Read b dht w = Ret (v, dht', w').
Proof.
  destruct (Read_spec b dht w) as (v & w' & evs & Hread & _).
  by eexists v, _, w'.
Qed.

(** The loop with [n >= 1] iterations left stops after [k] calls of [Read]:
    at the first one without an error, or at the [n]-th. *)
Lemma ReadRetry_loop_spec (b : Build) (n : nat) :
  ∀ (last : Values) (dht : DHT) (w : World),
    ∃ (k : nat) (v : Values) (dht' : DHT) (w' : World),
      (1 ≤ k ≤ S n)%nat
      ∧ ReadRetry_loop b (S n) last dht w = Ret (v, dht', w')
      ∧ ReadTimes b k last dht w = Ret (v, dht', w')
      ∧ (∀ j : nat, (1 ≤ j < k)%nat →
           ∃ vj dj wj, ReadTimes b j last dht w = Ret (vj, dj, wj) ∧ err vj ≠ None)
      ∧ (err v = None ∨ k = S n).
Proof.
  induction n as [| n IH]; intros last dht w;
    destruct (Read_total b dht w) as (v1 & d1 & w1 & Hread).
  - exists 1%nat, v1, d1, w1. cbn [ReadRetry_loop ReadTimes].
    rewrite Hread. cbn [go_bind].
    split; [lia |]. split; [by destruct (err v1) |]. split; [done |].
    split; [intros; lia | by right].
  - destruct (err v1) as [e1 |] eqn:Herr.
    + destruct (IH v1 d1 w1) as (k & v & d' & w' & Hk & Hloop & Htimes & Hfail & Hlast).
      exists (S k), v, d', w'.
      split; [lia |].
      split; [cbn [ReadRetry_loop] in *; rewrite Hread; cbn [go_bind]; by rewrite Herr |].
      split; [cbn [ReadTimes]; rewrite Hread; done |].
      split; [| destruct Hlast; [by left | right; lia]].
      intros j Hj. destruct j as [| [| j]]; [lia | |].
      * exists v1, d1, w1. cbn [ReadTimes]. rewrite Hread. cbn [go_bind].
        split; [done |]. by rewrite Herr.
      * destruct (Hfail (S j) ltac:(lia)) as (vj & dj & wj & Hj' & Hej).
        exists vj, dj, wj. split; [| done].
        change (ReadTimes b (S (S j)) last dht w)
          with ('(v, dht, w) ←! Read b dht w; ReadTimes b (S j) v dht w).
        rewrite Hread. done.
    + exists 1%nat, v1, d1, w1.
      split; [lia |].
      split; [cbn [ReadRetry_loop]; rewrite Hread; cbn [go_bind]; by rewrite Herr |].
      split; [cbn [ReadTimes]; by rewrite Hread |].
      split; [intros; lia | by left].
Qed.

(** C9. For [maxRetries >= 1], [ReadRetry] returns what the [k]-th of [k]
    successive calls of [Read] returns and leaves the handle and the world as
    they leave them, for a [k] between 1 and [maxRetries]: every call before
    the [k]-th returned an error, and the [k]-th returned none or is the
    [maxRetries]-th, whose error is then the one returned. *)
Theorem ReadRetry_attempts (b : Build) (maxRetries : Z) (dht : DHT) (w : World) :
  1 ≤ maxRetries →
  ∃ (k : nat) (v : Values) (dht' : DHT) (w' : World),
    (1 ≤ k)%nat ∧ Z.of_nat k ≤ maxRetries
    ∧ ReadRetry b maxRetries dht w = Ret (v, dht', w')
    ∧ ReadTimes b k zeroValues dht w = Ret (v, dht', w')
    ∧ (∀ j : nat, (1 ≤ j < k)%nat →
         ∃ vj dj wj,
           ReadTimes b j zeroValues dht w = Ret (vj, dj, wj) ∧ err vj ≠ None)
    ∧ (err v = None ∨ Z.of_nat k = maxRetries).
Proof.
  intros Hmax. unfold ReadRetry.
  destruct (Z.to_nat maxRetries) as [| n] eqn:Hn; [lia |].
  destruct (ReadRetry_loop_spec b n zeroValues dht w)
    as (k & v & d' & w' & Hk & Hloop & Htimes & Hfail & Hlast).
  exists k, v, d', w'.
  split; [lia |]. split; [lia |]. split; [done |]. split; [done |].
  split; [done |]. destruct Hlast; [by left | right; lia].
Qed.

(** Three attempts on a pin that refuses [Out(gpio.Low)]. *)
Lemma ReadRetry_attempts_witness :
  ∃ (k : nat) (v : Values) (dht' : DHT) (w' : World),
    (1 ≤ k)%nat ∧ Z.of_nat k ≤ 3
    ∧ ReadRetry NotWindows 3 (newHandle Celsius "" 0) (worldAt 0 deadPin)
      = Ret (v, dht', w')
    ∧ ReadTimes NotWindows k zeroValues (newHandle Celsius "" 0) (worldAt 0 deadPin)
      = Ret (v, dht', w')
    ∧ (∀ j : nat, (1 ≤ j < k)%nat →
         ∃ vj dj wj,
           ReadTimes NotWindows j zeroValues (newHandle Celsius "" 0)
             (worldAt 0 deadPin) = Ret (vj, dj, wj)
           ∧ err vj ≠ None)
    ∧ (err v = None ∨ Z.of_nat k = 3).
Proof.
  apply (ReadRetry_attempts NotWindows 3 (newHandle Celsius "" 0) (worldAt 0 deadPin)).
  lia.
Defined.

(** C10. For [maxRetries <= 0] the loop body is never entered: [ReadRetry]
    returns humidity 0, temperature 0 and no error, and the handle and the
    world are as before: no sleep, no capture. *)
Theorem ReadRetry_no_attempt (b : Build) (maxRetries : Z) (dht : DHT) (w : World) :
  maxRetries ≤ 0 →
  ReadRetry b maxRetries dht w = Ret (mkValues 0 0 None, dht, w).
Proof.
  intros Hmax. unfold ReadRetry.
  by replace (Z.to_nat maxRetries) with 0%nat by lia.
Qed.

Lemma ReadRetry_no_attempt_witness :
  ReadRetry NotWindows (-2) (newHandle Celsius "" 0) (worldAt 0 deadPin)
  = Ret (mkValues 0 0 None, newHandle Celsius "" 0, worldAt 0 deadPin).
Proof.
  apply (ReadRetry_no_attempt NotWindows (-2) (newHandle Celsius "" 0)
           (worldAt 0 deadPin)).
  lia.
Defined.

(** ** ReadBackground *)

Lemma advance_0 (w : World) : advance 0 w = w.
Proof. destruct w. unfold advance. cbn. f_equal. lia. Qed.

(** C7, as amended. With [stop] closed before the loop starts, the loop first
    makes one call of [Read], with its sleep and its capture. When that call
    returns an error nothing is written to the caller and the loop is left;
    when it returns none, the reading is written to the caller's two cells and
    the loop is left, provided the timer of the select is still pending or the
    runtime picks [<-stop]. In both cases [stopped] is closed, once, as the
    last effect, and one iteration of fuel is enough. *)
Theorem ReadBackground_stop_closed_at_start
    (b : Build) (fuel : nat) (sleepDuration s : Z) (dht : DHT) (w : World)
    (c : Caller) :
  s ≤ now w → wellTimed w → stoppedClosed c = false →
  ∃ (v : Values) (dht1 : DHT) (w1 : World),
    Read b dht w = Ret (v, dht1, w1)
    ∧ match err v with
      | Some _ =>
          ReadBackground b (S fuel) sleepDuration (Some s) dht w c
          = Some (Ret (dht1, emit EvCloseStopped w1,
                       mkCaller (humidityCell c) (temperatureCell c) true))
      | None =>
          0 < wrap64 (sleepDuration - since w1 (now w))
          ∨ selectStop w (now w1) = true →
          ReadBackground b (S fuel) sleepDuration (Some s) dht w c
          = Some (Ret (dht1,
                       emit EvCloseStopped
                         (emit (EvStore (humidity v) (temperature v)) w1),
                       mkCaller (humidity v) (temperature v) true))
      end.
Proof.
  intros Hs Hwt Hopen.
  destruct (Read_spec b dht w) as (v & w1 & evs & Hread & _ & _ & _ & Hsel & Hnow).
  specialize (Hnow Hwt).
  eexists v, _, w1. split; [done |].
  unfold ReadBackground. cbn [ReadBackground_loop]. rewrite Hread.
  destruct (err v) as [e |].
  - cbn [stopClosed]. destruct (Z.leb_spec s (now w1)); [| lia].
    by rewrite Hopen.
  - intros Hexit. unfold selectAfterOrStop.
    set (w2 := emit (EvStore (humidity v) (temperature v)) w1).
    change (now w2) with (now w1). change (selectStop w2) with (selectStop w1).
    change (since w2 (now w)) with (since w1 (now w)).
    set (d := wrap64 (sleepDuration - since w1 (now w))) in *.
    rewrite (Z.max_l (now w1) s) by lia.
    rewrite Z.sub_diag, advance_0.
    destruct (Z.ltb_spec (now w1) (now w1 + Z.max 0 d)).
    + cbn [stoppedClosed humidityCell temperatureCell]. by rewrite Hopen.
    + destruct (Z.ltb_spec (now w1 + Z.max 0 d) (now w1)); [lia |].
      assert (Z.max 0 d = 0) as Hd by lia.
      destruct Hexit as [Hpos | Hcoin]; [lia |].
      rewrite Hd, Z.add_0_r, Hsel, Hcoin.
      replace (now w1 - now w1) with 0 by lia. rewrite advance_0.
      cbn [stoppedClosed humidityCell temperatureCell]. by rewrite Hopen.
Qed.

Lemma sensor_wellTimed (t : Z) (bits : list Z) : wellTimed (worldAt t (sensor bits)).
Proof.
  intros n i. unfold worldAt, sensor, sensorSlot, Microsecond.
  cbn [pinScript slot fst].
  destruct (i <? 4)%nat; [lia |].
  destruct (Nat.even i); [| lia].
  destruct (decide _); lia.
Qed.

(** The example sensor, [stop] closed at time 0, the loop started at time 0. *)
Lemma ReadBackground_stop_closed_at_start_witness :
  let dht := newHandle Celsius "" 0 in
  let w := worldAt 0 (sensor exampleFrame) in
  let c := mkCaller 0 0 false in
  ∃ (v : Values) (dht1 : DHT) (w1 : World),
    Read NotWindows dht w = Ret (v, dht1, w1)
    ∧ match err v with
      | Some _ =>
          ReadBackground NotWindows 1 (20 * Second) (Some 0) dht w c
          = Some (Ret (dht1, emit EvCloseStopped w1,
                       mkCaller (humidityCell c) (temperatureCell c) true))
      | None =>
          0 < wrap64 (20 * Second - since w1 (now w))
          ∨ selectStop w (now w1) = true →
          ReadBackground NotWindows 1 (20 * Second) (Some 0) dht w c
          = Some (Ret (dht1,
                       emit EvCloseStopped
                         (emit (EvStore (humidity v) (temperature v)) w1),
                       mkCaller (humidity v) (temperature v) true))
      end.
Proof.
  apply (ReadBackground_stop_closed_at_start NotWindows 0 (20 * Second) 0
           (newHandle Celsius "" 0) (worldAt 0 (sensor exampleFrame))
           (mkCaller 0 0 false)).
  - vm_compute. congruence.
  - apply sensor_wellTimed.
  - reflexivity.
Defined.

(** C7 as stated fails: [stop] is closed before the loop starts, and the loop
    still reads the sensor once and writes the reading, 65.2 % and 25.1
    degrees, over the caller's cells before it closes [stopped]. *)
Lemma ReadBackground_publishes_counterexample :
  let w := worldAt 0 (sensor exampleFrame) in
  let c := mkCaller 0 0 false in
  let h := (float64_of_int 652 / 10)%float in
  let t := (float64_of_int 251 / 10)%float in
  stopClosed (Some 0) (now w) = true
  ∧ (∃ (dht' : DHT) (w' : World) (rest : list Event),
       ReadBackground NotWindows 1 (20 * Second) (Some 0)
         (newHandle Celsius "" 0) w c
       = Some (Ret (dht', w', mkCaller h t true))
       ∧ trace w' = EvCloseStopped :: EvStore h t :: rest)
  ∧ h ≠ humidityCell c.
Proof.
  cbv zeta. split; [reflexivity |]. split.
  - eexists _, _, _. split; vm_compute; reflexivity.
  - intros H.
    apply (f_equal (fun x => PrimFloat.ltb 0 x)) in H.
    vm_compute in H. discriminate H.
Qed.

(** * Further properties *)

(** ** bitsToValues on any slice *)

Lemma index_Panic {A : Type} (l : list A) (i : Z) :
  index l i = Panic ↔ i < 0 ∨ Z.of_nat (length l) ≤ i.
Proof.
  unfold index. destruct (Z.ltb_spec i 0); [split; [by left | done] |].
  destruct (l !! Z.to_nat i) as [a |] eqn:Hl.
  - apply lookup_lt_Some in Hl. split; [done | lia].
  - apply lookup_ge_None in Hl. split; [right; lia | done].
Qed.

Lemma foldl_ext_in {A B : Type} (f g : A → B → A) (l : list B) (a : A) :
  (∀ a x, x ∈ l → f a x = g a x) → foldl f a l = foldl g a l.
Proof.
  revert a. induction l as [| x l IH]; intros a Hext; [done |].
  simpl. rewrite Hext by left. apply IH. intros a' y Hy. apply Hext. by right.
Qed.

Lemma elem_of_upto (a : Z) (n : nat) (i : Z) :
  i ∈ upto a n ↔ a ≤ i < a + Z.of_nat n.
Proof.
  revert a. induction n as [| n IH]; intros a; simpl.
  - rewrite elem_of_nil. lia.
  - rewrite elem_of_cons, IH. lia.
Qed.

Lemma foldl_Panic {A : Type} (f : Go A → Z → Go A) (l : list Z) :
  (∀ i, f Panic i = Panic) → foldl f Panic l = Panic.
Proof. intros Hf. induction l as [| i l IH]; simpl; [done | by rewrite Hf]. Qed.

(** A loop that reads [bits[i]] for [i] from [a] on returns when the indices
    are inside the slice and panics when one is not. *)
Lemma index_loop {A : Type} (f : Go A → Z → Go A) (step : A → Z → Z → A)
    (bits : list Z) (n : nat) :
  (∀ st i, f st i = (s ←! st; b ←! index bits i; Ret (step s i b))) →
  ∀ (a : Z) (s : A), 0 ≤ a ≤ Z.of_nat (length bits) →
    (a + Z.of_nat n ≤ Z.of_nat (length bits) → ∃ s', foldl f (Ret s) (upto a n) = Ret s')
    ∧ (Z.of_nat (length bits) < a + Z.of_nat n → foldl f (Ret s) (upto a n) = Panic).
Proof.
  intros Hf. induction n as [| n IH]; intros a s Ha.
  - split; [by eexists | lia].
  - simpl upto. simpl foldl. rewrite Hf. cbn [go_bind].
    destruct (index bits a) as [b |] eqn:Hb.
    + cbn [go_bind]. apply index_Ret in Hb as [_ Hb]. apply lookup_lt_Some in Hb.
      destruct (IH (a + 1) (step s a b) ltac:(lia)) as [Hin Hout].
      split; [intros ?; apply Hin; lia | intros ?; apply Hout; lia].
    + cbn [go_bind]. apply index_Panic in Hb.
      split; [lia | intros _].
      apply foldl_Panic. intros i. by rewrite Hf.
Qed.

Lemma bitStep_loop (fa fb : Z) (bits : list Z) (n : nat) (a : Z) (s : BitAcc) :
  0 ≤ a ≤ Z.of_nat (length bits) →
  (a + Z.of_nat n ≤ Z.of_nat (length bits) →
     ∃ s', foldl (bitStep fa fb bits) (Ret s) (upto a n) = Ret s')
  ∧ (Z.of_nat (length bits) < a + Z.of_nat n →
     foldl (bitStep fa fb bits) (Ret s) (upto a n) = Panic).
Proof.
  apply (index_loop (bitStep fa fb bits)
    (λ s i b,
       if (i =? fa) || (i =? fb)
       then mkBitAcc (wrapInt (wrapInt (Z.shiftl (accInt s) 1) + b)) 0
              (u8 (accSumTotal s + u8 (u8 (Z.shiftl (accSum8 s) 1) + u8 b)))
       else mkBitAcc (wrapInt (wrapInt (Z.shiftl (accInt s) 1) + b))
              (u8 (u8 (Z.shiftl (accSum8 s) 1) + u8 b)) (accSumTotal s))).
  intros [st |] i; [| done]. unfold bitStep. cbn [go_bind].
  destruct (index bits i); [| done]. cbn [go_bind].
  by destruct ((i =? fa) || (i =? fb)).
Qed.

Lemma checkSumStep_loop (bits : list Z) (n : nat) (a c : Z) :
  0 ≤ a ≤ Z.of_nat (length bits) →
  (a + Z.of_nat n ≤ Z.of_nat (length bits) →
     ∃ c', foldl (checkSumStep bits) (Ret c) (upto a n) = Ret c')
  ∧ (Z.of_nat (length bits) < a + Z.of_nat n →
     foldl (checkSumStep bits) (Ret c) (upto a n) = Panic).
Proof.
  apply (index_loop (checkSumStep bits)
    (λ c _ b, u8 (u8 (Z.shiftl c 1) + u8 b))).
  intros [st |] i; [| done]. unfold checkSumStep. cbn [go_bind].
  by destruct (index bits i).
Qed.

(** X1. [bitsToValues] panics exactly on a slice of fewer than 40 elements,
    whatever the integers in it. *)
Theorem bitsToValues_panics_iff_short (dht : DHT) (bits : list Z) :
  bitsToValues dht bits = Panic ↔ (length bits < 40)%nat.
Proof.
  unfold bitsToValues.
  destruct (bitStep_loop 7 15 bits 16 0 (mkBitAcc 0 0 0) ltac:(lia)) as [Hin1 Hout1].
  destruct (decide (length bits < 16)%nat) as [H16 | H16].
  { rewrite Hout1 by lia. cbn [go_bind]. split; [lia | done]. }
  destruct Hin1 as [h ->]; [lia |]. cbn [go_bind].
  destruct (bitStep_loop 23 31 bits 16 16 (mkBitAcc 0 (accSum8 h) (accSumTotal h))
              ltac:(lia)) as [Hin2 Hout2].
  destruct (decide (length bits < 32)%nat) as [H32 | H32].
  { rewrite Hout2 by lia. cbn [go_bind]. split; [lia | done]. }
  destruct Hin2 as [t ->]; [lia |]. cbn [go_bind].
  destruct (checkSumStep_loop bits 8 32 0 ltac:(lia)) as [Hin3 Hout3].
  destruct (decide (length bits < 40)%nat) as [H40 | H40].
  { rewrite Hout3 by lia. cbn [go_bind]. split; [lia | done]. }
  destruct Hin3 as [c ->]; [lia |]. cbn [go_bind].
  split; [discriminate | lia].
Qed.

(** X2. [bitsToValues] reads the first 40 elements only: what follows them
    changes nothing. *)
Theorem bitsToValues_first_40 (dht : DHT) (bits more : list Z) :
  (40 ≤ length bits)%nat →
  bitsToValues dht (bits ++ more) = bitsToValues dht bits.
Proof.
  intros Hlen.
  assert (Hidx : ∀ i, 0 ≤ i < 40 → index (bits ++ more) i = index bits i).
  { intros i Hi. apply index_agree. intros _. apply lookup_app_l. lia. }
  unfold bitsToValues.
  rewrite (foldl_ext_in (bitStep 7 15 (bits ++ more)) (bitStep 7 15 bits)).
  2: { intros a i Hi%elem_of_upto. unfold bitStep. rewrite Hidx by lia. done. }
  destruct (foldl (bitStep 7 15 bits) _ _) as [h |]; [| done]. cbn [go_bind].
  rewrite (foldl_ext_in (bitStep 23 31 (bits ++ more)) (bitStep 23 31 bits)).
  2: { intros a i Hi%elem_of_upto. unfold bitStep. rewrite Hidx by lia. done. }
  destruct (foldl (bitStep 23 31 bits) _ _) as [t |]; [| done]. cbn [go_bind].
  rewrite (foldl_ext_in (checkSumStep (bits ++ more)) (checkSumStep bits)).
  2: { intros a i Hi%elem_of_upto. unfold checkSumStep. rewrite Hidx by lia. done. }
  done.
Qed.

Lemma bitsToValues_first_40_witness :
  bitsToValues (generic Celsius) (exampleFrame ++ [1; 1; 7])
  = bitsToValues (generic Celsius) exampleFrame.
Proof.
  apply (bitsToValues_first_40 (generic Celsius) exampleFrame [1; 1; 7]).
  vm_compute. lia.
Defined.

(** ** Readings in and out of frames *)

Lemma twosComplement_mod (ti : Z) :
  -32768 ≤ ti < 32768 → twosComplement (ti `mod` 65536) = ti.
Proof.
  intros Hti. unfold twosComplement.
  destruct (Z.neg_nonneg_cases ti) as [Hneg | Hpos].
  - assert (ti `mod` 65536 = ti + 65536) as ->.
    { symmetry. apply (Z.mod_unique ti 65536 (-1)); lia. }
    destruct (Z.ltb_spec (ti + 65536) 32768); lia.
  - rewrite Z.mod_small by lia.
    destruct (Z.ltb_spec ti 32768); lia.
Qed.

Lemma dataSum_byte (h t : Z) : 0 ≤ dataSum h t < 256.
Proof. unfold dataSum. apply Z.mod_pos_bound. lia. Qed.

(** X3. Round trip through a frame: a humidity integer and a temperature
    integer inside the limits of the sensor type, written as two 16-bit fields
    (the temperature as two's complement) with the sum of the four bytes as
    checksum, come back without an error: as tenths for the generic sensor, as
    they are for the DHT11, the temperature in either unit. *)
Theorem bitsToValues_round_trip (u : TemperatureUnit) (h ti : Z) :
  let t := ti `mod` 65536 in
  (0 ≤ h ≤ 1000 → -400 ≤ ti ≤ 800 →
   bitsToValues (generic u) (frame h t (dataSum h t))
   = Ret (mkValues
            (float64_of_int h / 10)%float
            (if u =? Celsius then (float64_of_int ti / 10)%float
             else (float64_of_int ti * 9 / 50 + 32)%float)
            None))
  ∧ (0 ≤ h ≤ 100 → 0 ≤ ti ≤ 50 →
     bitsToValues (dht11 u) (frame h t (dataSum h t))
     = Ret (mkValues
              (float64_of_int h)
              (if u =? Celsius then float64_of_int ti
               else (float64_of_int ti * 9 / 5 + 32)%float)
              None)).
Proof.
  intros t.
  assert (Ht : 0 ≤ t < 65536) by (apply Z.mod_pos_bound; lia).
  pose proof (dataSum_byte h t) as Hc.
  split; intros Hh Hti.
  - rewrite bitsToValues_frame by lia.
    rewrite signExtend_16 by done. unfold t. rewrite twosComplement_mod by lia.
    unfold valuesOf, generic. cbn [sensorType temperatureUnit].
    change (negb ("" =? "dht11")%string) with true. cbv iota.
    destruct (Z.ltb_spec h 0); [lia |]. destruct (Z.gtb_spec h 1000); [lia |].
    destruct (Z.ltb_spec ti (-400)); [lia |]. destruct (Z.gtb_spec ti 800); [lia |].
    cbn [orb]. by rewrite Z.eqb_refl.
  - rewrite bitsToValues_frame by lia.
    rewrite signExtend_16 by done. unfold t. rewrite twosComplement_mod by lia.
    unfold valuesOf, dht11. cbn [sensorType temperatureUnit].
    change (negb ("dht11" =? "dht11")%string) with false. cbv iota.
    destruct (Z.ltb_spec h 0); [lia |]. destruct (Z.gtb_spec h 100); [lia |].
    destruct (Z.ltb_spec ti 0); [lia |]. destruct (Z.gtb_spec ti 50); [lia |].
    cbn [orb]. by rewrite Z.eqb_refl.
Qed.

(** 12.5 degrees below zero at 43.7 %, and a DHT11 at 21 degrees and 35 %. *)
Lemma bitsToValues_round_trip_witness :
  bitsToValues (generic Celsius)
    (frame 437 ((-125) `mod` 65536) (dataSum 437 ((-125) `mod` 65536)))
  = Ret (mkValues (float64_of_int 437 / 10) (float64_of_int (-125) / 10) None)
  ∧ bitsToValues (dht11 Fahrenheit)
      (frame 35 (21 `mod` 65536) (dataSum 35 (21 `mod` 65536)))
    = Ret (mkValues (float64_of_int 35) (float64_of_int 21 * 9 / 5 + 32) None).
Proof.
  split.
  - apply (proj1 (bitsToValues_round_trip Celsius 437 (-125))); lia.
  - apply (proj2 (bitsToValues_round_trip Fahrenheit 35 21)); lia.
Defined.

Lemma forallb_upto (P : Z → bool) (a : Z) (n : nat) (z : Z) :
  forallb P (upto a n) = true → a ≤ z < a + Z.of_nat n → P z = true.
Proof.
  intros Hall Hz.
  apply (proj1 (forallb_forall P (upto a n)) Hall).
  apply list_elem_of_In. by apply elem_of_upto.
Qed.

(** X4. Whatever the frame, the generic sensor's result is a humidity between
    0 and 100 and a temperature between -40 and 80 in Celsius, between -40 and
    176 in Fahrenheit: with an error or without. *)
Theorem bitsToValues_generic_bounds (u : TemperatureUnit) (h t c : Z) :
  0 ≤ h < 65536 → 0 ≤ t < 65536 → 0 ≤ c < 256 →
  ∃ v : Values,
    bitsToValues (generic u) (frame h t c) = Ret v
    ∧ (0 <=? humidity v)%float = true
    ∧ (humidity v <=? 100)%float = true
    ∧ (-40 <=? temperature v)%float = true
    ∧ (temperature v <=? (if (u =? Celsius)%Z then 80 else 176))%float = true.
Proof.
  intros Hh Ht Hc. eexists. split; [by apply bitsToValues_frame |].
  rewrite signExtend_16 by done.
  set (ti := twosComplement t).
  unfold valuesOf, generic. cbn [sensorType temperatureUnit].
  change (negb ("" =? "dht11")%string) with true. cbv iota.
  destruct (Z.ltb_spec h 0); [lia |]. cbn [orb].
  destruct (Z.gtb_spec h 1000).
  { cbn [humidity temperature]. by destruct (u =? Celsius). }
  destruct (Z.ltb_spec ti (-400)).
  { cbn [orb humidity temperature]. by destruct (u =? Celsius). }
  destruct (Z.gtb_spec ti 800).
  { cbn [orb humidity temperature]. by destruct (u =? Celsius). }
  cbn [orb humidity temperature].
  assert (Hhum : forallb (λ h, (0 <=? float64_of_int h / 10)%float
                             && (float64_of_int h / 10 <=? 100)%float)
                   (upto 0 1001) = true) by (vm_compute; reflexivity).
  assert (HC : forallb (λ ti, (-40 <=? float64_of_int ti / 10)%float
                             && (float64_of_int ti / 10 <=? 80)%float)
                   (upto (-400) 1201) = true) by (vm_compute; reflexivity).
  assert (HF : forallb (λ ti, (-40 <=? float64_of_int ti * 9 / 50 + 32)%float
                             && (float64_of_int ti * 9 / 50 + 32 <=? 176)%float)
                   (upto (-400) 1201) = true) by (vm_compute; reflexivity).
  apply (forallb_upto _ _ _ h) in Hhum; [| lia].
  apply (forallb_upto _ _ _ ti) in HC; [| lia].
  apply (forallb_upto _ _ _ ti) in HF; [| lia].
  apply andb_true_iff in Hhum as [? ?].
  apply andb_true_iff in HC as [? ?]. apply andb_true_iff in HF as [? ?].
  by destruct (u =? Celsius).
Qed.

Lemma bitsToValues_generic_bounds_witness :
  ∃ v : Values,
    bitsToValues (generic Fahrenheit) (frame 1000 800 0) = Ret v
    ∧ (0 <=? humidity v)%float = true
    ∧ (humidity v <=? 100)%float = true
    ∧ (-40 <=? temperature v)%float = true
    ∧ (temperature v <=? (if (Fahrenheit =? Celsius)%Z then 80 else 176))%float = true.
Proof.
  apply (bitsToValues_generic_bounds Fahrenheit 1000 800 0); lia.
Defined.

(** ** The decoder: acceptance and the order of the faults *)

Local Arguments stride2_from : simpl never.

Lemma collect_Ok_lookup (check : Z → Go (Result Z)) (a : Z) (n : nat) (bs : list Z) :
  collect check (stride2_from a n) = Ret (Ok bs)
  ↔ length bs = n
    ∧ ∀ k : nat, (k < n)%nat →
        ∃ b, check (a + 2 * Z.of_nat k) = Ret (Ok b) ∧ bs !! k = Some b.
Proof.
  rewrite collect_Ok, Forall2_same_length_lookup, length_stride2_from. split.
  - intros [Hlen Hall]. split; [done |]. intros k Hk.
    destruct (lookup_lt_is_Some_2 bs k) as [b Hb]; [lia |].
    exists b. split; [| done].
    apply (Hall k); [by apply stride2_from_lookup | done].
  - intros [Hlen Hall]. split; [done |]. intros k i b Hi Hb.
    assert (k < n)%nat as Hk by (apply lookup_lt_Some in Hb; lia).
    rewrite stride2_from_lookup in Hi by done. injection Hi as <-.
    destruct (Hall k Hk) as (b' & Hc & Hb'). congruence.
Qed.

Lemma forEach_unit_Ok_lookup (body : Z → unit → Go (Result unit)) (a : Z) (n : nat) :
  forEach body (stride2_from a n) () = Ret (Ok ())
  ↔ ∀ k : nat, (k < n)%nat → body (a + 2 * Z.of_nat k) () = Ret (Ok ()).
Proof.
  rewrite forEach_unit_Ok, Forall_lookup. split.
  - intros Hall k Hk. apply (Hall k). by apply stride2_from_lookup.
  - intros Hall k i Hi.
    assert (k < n)%nat as Hk.
    { apply lookup_lt_Some in Hi. by rewrite length_stride2_from in Hi. }
    rewrite stride2_from_lookup in Hi by done. injection Hi as <-. by apply Hall.
Qed.

(** The window that ends at [e] is accepted exactly when its 40 high pulses
    and its 40 low pulses pass their checks. *)
Lemma decodeWindow_accepts (levels : list Level) (durations bits : list Z) (e : Z) :
  decodeWindow levels durations e = Ret (Ok bits)
  ↔ length bits = 40%nat
    ∧ ∀ k : nat, (k < 40)%nat →
        ∃ dh dl : Z,
          index levels (e - 79 + 2 * Z.of_nat k) = Ret High
          ∧ index durations (e - 79 + 2 * Z.of_nat k) = Ret dh
          ∧ dh ≤ 90 * Microsecond
          ∧ index levels (e - 78 + 2 * Z.of_nat k) = Ret Low
          ∧ index durations (e - 78 + 2 * Z.of_nat k) = Ret dl
          ∧ 35 * Microsecond ≤ dl ≤ 70 * Microsecond
          ∧ bits !! k = Some (if dh >? 30 * Microsecond then 1 else 0).
Proof.
  rewrite decodeWindow_Ok, collect_Ok_lookup, forEach_unit_Ok_lookup. split.
  - intros [[Hlen Hhigh] Hlow]. split; [done |]. intros k Hk.
    destruct (Hhigh k Hk) as (b & (dh & Hl & Hd & Hle & ->)%highCheck_Ok & Hb).
    destruct (proj1 (lowBody_Ok _ _ _) (Hlow k Hk)) as (dl & Hl' & Hd' & Hle').
    by exists dh, dl.
  - intros [Hlen Hall]. split; [split; [done |] |]; intros k Hk;
      destruct (Hall k Hk) as (dh & dl & Hl & Hd & Hle & Hl' & Hd' & Hle' & Hb).
    + eexists. split; [| done]. apply highCheck_Ok. by exists dh.
    + apply lowBody_Ok. by exists dl.
Qed.

(** X5. The decoder returns 40 bits exactly when the search finds a last low
    level, at [e], and in the window that ends there every high pulse is high
    and lasts at most 90 microseconds and every low pulse is low and lasts
    from 35 to 70 microseconds; bit [k] is then 1 exactly when the [k]-th high
    pulse lasts more than 30 microseconds. *)
Theorem decodePulses_accepts_iff (levels : list Level) (durations bits : list Z) :
  decodePulses levels durations = Ret (Ok bits)
  ↔ ∃ e : Z,
      findEndNumber levels = Ret (Ok e)
      ∧ length bits = 40%nat
      ∧ ∀ k : nat, (k < 40)%nat →
          ∃ dh dl : Z,
            index levels (e - 79 + 2 * Z.of_nat k) = Ret High
            ∧ index durations (e - 79 + 2 * Z.of_nat k) = Ret dh
            ∧ dh ≤ 90 * Microsecond
            ∧ index levels (e - 78 + 2 * Z.of_nat k) = Ret Low
            ∧ index durations (e - 78 + 2 * Z.of_nat k) = Ret dl
            ∧ 35 * Microsecond ≤ dl ≤ 70 * Microsecond
            ∧ bits !! k = Some (if dh >? 30 * Microsecond then 1 else 0).
Proof.
  split.
  - intros Hdec. unfold decodePulses, res_bind in Hdec.
    destruct (findEndNumber levels) as [[e | err] |] eqn:He; cbn [go_bind] in Hdec;
      [| done | done].
    exists e. split; [done |]. by apply decodeWindow_accepts.
  - intros (e & He & Hacc).
    rewrite (decodePulses_window _ _ _ He). by apply decodeWindow_accepts.
Qed.

(** X6. The high pulses are checked first, all 40 of them: when the [k]-th
    high pulse is the first that fails its check, the decoder returns its
    error, "level not high" or "high level duration too long", whatever the low
    pulses are, those before it too. *)
Theorem decodePulses_high_fault_first
    (levels : list Level) (durations : list Z) (e : Z) (k : nat) :
  findEndNumber levels = Ret (Ok e) →
  (k < 40)%nat →
  (∀ j : nat, (j < k)%nat →
     ∃ d, index levels (e - 79 + 2 * Z.of_nat j) = Ret High
          ∧ index durations (e - 79 + 2 * Z.of_nat j) = Ret d
          ∧ d ≤ 90 * Microsecond) →
  (index levels (e - 79 + 2 * Z.of_nat k) = Ret Low →
   decodePulses levels durations = Ret (Err ErrNotHigh))
  ∧ (∀ d, index levels (e - 79 + 2 * Z.of_nat k) = Ret High →
          index durations (e - 79 + 2 * Z.of_nat k) = Ret d →
          90 * Microsecond < d →
          decodePulses levels durations = Ret (Err (ErrHighTooLong d))).
Proof.
  intros He Hk Hpre.
  rewrite (decodePulses_window _ _ _ He), decodeWindow_collect.
  assert (Hk' : stride2_from (e - 79) 40 !! k = Some (e - 79 + 2 * Z.of_nat k))
    by (by apply stride2_from_lookup).
  rewrite <- (take_drop_middle _ _ _ Hk').
  assert (Hok : Forall (λ j, ∃ b, highCheck levels durations j = Ret (Ok b))
                  (take k (stride2_from (e - 79) 40))).
  { apply Forall_lookup. intros j i Hi.
    apply lookup_take_Some in Hi as [Hi Hj].
    rewrite stride2_from_lookup in Hi by lia. injection Hi as <-.
    destruct (Hpre j Hj) as (d & Hl & Hd & Hle).
    eexists. apply highCheck_Ok. by exists d. }
  split.
  - intros Hl. rewrite (collect_Err _ _ _ _ ErrNotHigh Hok); [done |].
    unfold highCheck. rewrite Hl. cbn [go_bind]. destruct (decide (Low ≠ High)) as [_ | Hn]; [done | by destruct Hn].
  - intros d Hl Hd Hgt. rewrite (collect_Err _ _ _ _ (ErrHighTooLong d) Hok); [done |].
    unfold highCheck. rewrite Hl, Hd. cbn [go_bind].
    destruct (decide (High ≠ High)); [done |].
    destruct (Z.gtb_spec d (90 * Microsecond)); [done | lia].
Qed.

(** In the example capture the second high pulse lasts 91 microseconds and the
    first low pulse 71: the error is that of the high pulse. *)
Lemma decodePulses_high_fault_first_witness :
  let durations := <[6%nat := 91 * Microsecond]>
                     (<[5%nat := 71 * Microsecond]> exampleDurations) in
  (index exampleLevels (83 - 79 + 2 * Z.of_nat 1) = Ret Low →
   decodePulses exampleLevels durations = Ret (Err ErrNotHigh))
  ∧ (∀ d, index exampleLevels (83 - 79 + 2 * Z.of_nat 1) = Ret High →
          index durations (83 - 79 + 2 * Z.of_nat 1) = Ret d →
          90 * Microsecond < d →
          decodePulses exampleLevels durations = Ret (Err (ErrHighTooLong d))).
Proof.
  apply (decodePulses_high_fault_first exampleLevels _ 83 1).
  - vm_compute. reflexivity.
  - lia.
  - intros j Hj. assert (j = 0%nat) as -> by lia.
    exists (26 * Microsecond). vm_compute. repeat split; congruence.
Defined.

(** X7. When all 40 high pulses pass, the low pulses are checked in order: the
    first that fails gives "level not low", "low level duration too long" above
    70 microseconds or "low level duration too short" below 35. *)
Theorem decodePulses_low_fault
    (levels : list Level) (durations : list Z) (e : Z) (k : nat) :
  findEndNumber levels = Ret (Ok e) →
  (k < 40)%nat →
  (∀ j : nat, (j < 40)%nat →
     ∃ d, index levels (e - 79 + 2 * Z.of_nat j) = Ret High
          ∧ index durations (e - 79 + 2 * Z.of_nat j) = Ret d
          ∧ d ≤ 90 * Microsecond) →
  (∀ j : nat, (j < k)%nat →
     ∃ d, index levels (e - 78 + 2 * Z.of_nat j) = Ret Low
          ∧ index durations (e - 78 + 2 * Z.of_nat j) = Ret d
          ∧ 35 * Microsecond ≤ d ≤ 70 * Microsecond) →
  (index levels (e - 78 + 2 * Z.of_nat k) = Ret High →
   decodePulses levels durations = Ret (Err ErrNotLow))
  ∧ (∀ d, index levels (e - 78 + 2 * Z.of_nat k) = Ret Low →
          index durations (e - 78 + 2 * Z.of_nat k) = Ret d →
          (70 * Microsecond < d →
           decodePulses levels durations = Ret (Err (ErrLowTooLong d)))
          ∧ (d < 35 * Microsecond →
             decodePulses levels durations = Ret (Err (ErrLowTooShort d)))).
Proof.
  intros He Hk Hhigh Hpre.
  rewrite (decodePulses_window _ _ _ He), decodeWindow_collect.
  assert (∃ bs, collect (highCheck levels durations) (stride2_from (e - 79) 40)
                = Ret (Ok bs)) as [bs ->].
  { exists ((λ j : nat,
               match index durations (e - 79 + 2 * Z.of_nat j) with
               | Ret d => if d >? 30 * Microsecond then 1 else 0
               | Panic => 0
               end) <$> seq 0 40).
    apply collect_Ok_lookup. split; [by rewrite length_fmap, length_seq |].
    intros j Hj. destruct (Hhigh j Hj) as (d & Hl & Hd & Hle).
    eexists. split; [apply highCheck_Ok; by exists d |].
    rewrite list_lookup_fmap, lookup_seq_lt by done. cbn. by rewrite Hd. }
  unfold res_bind at 1. cbn [go_bind].
  assert (Hk' : stride2_from (e - 78) 40 !! k = Some (e - 78 + 2 * Z.of_nat k))
    by (by apply stride2_from_lookup).
  rewrite <- (take_drop_middle _ _ _ Hk').
  assert (Hok : Forall (λ j, lowBody levels durations j () = Ret (Ok ()))
                  (take k (stride2_from (e - 78) 40))).
  { apply Forall_lookup. intros j i Hi.
    apply lookup_take_Some in Hi as [Hi Hj].
    rewrite stride2_from_lookup in Hi by lia. injection Hi as <-.
    destruct (Hpre j Hj) as (d & Hl & Hd & Hle).
    apply lowBody_Ok. by exists d. }
  split.
  - intros Hl. rewrite (forEach_unit_Err _ _ _ _ ErrNotLow Hok); [done |].
    unfold lowBody. rewrite Hl. cbn [go_bind]. destruct (decide (High ≠ Low)) as [_ | Hn]; [done | by destruct Hn].
  - intros d Hl Hd. split; intros Hbad.
    + rewrite (forEach_unit_Err _ _ _ _ (ErrLowTooLong d) Hok); [done |].
      unfold lowBody. rewrite Hl, Hd. cbn [go_bind].
      destruct (decide (Low ≠ Low)); [done |].
      destruct (Z.gtb_spec d (70 * Microsecond)); [done | lia].
    + rewrite (forEach_unit_Err _ _ _ _ (ErrLowTooShort d) Hok); [done |].
      unfold lowBody. rewrite Hl, Hd. cbn [go_bind].
      destruct (decide (Low ≠ Low)); [done |].
      unfold Microsecond in *.
      destruct (Z.gtb_spec d (70 * 1000)); [lia |].
      destruct (Z.ltb_spec d (35 * 1000)); [done | lia].
Qed.

(** In the example capture the first low pulse lasts 34 microseconds. *)
Lemma decodePulses_low_fault_witness :
  let durations := <[Z.to_nat 5 := 34 * Microsecond]> exampleDurations in
  (index exampleLevels (83 - 78 + 2 * Z.of_nat 0) = Ret High →
   decodePulses exampleLevels durations = Ret (Err ErrNotLow))
  ∧ (∀ d, index exampleLevels (83 - 78 + 2 * Z.of_nat 0) = Ret Low →
          index durations (83 - 78 + 2 * Z.of_nat 0) = Ret d →
          (70 * Microsecond < d →
           decodePulses exampleLevels durations = Ret (Err (ErrLowTooLong d)))
          ∧ (d < 35 * Microsecond →
             decodePulses exampleLevels durations = Ret (Err (ErrLowTooShort d)))).
Proof.
  apply (decodePulses_low_fault exampleLevels _ 83 0).
  - vm_compute. reflexivity.
  - lia.
  - intros j Hj.
    assert (Hbase : decodeWindow exampleLevels exampleDurations 83
                    = Ret (Ok exampleFrame)) by (vm_compute; reflexivity).
    destruct (proj2 (proj1 (decodeWindow_accepts _ _ _ _) Hbase) j Hj)
      as (dh & dl & Hl & Hd & Hle & _).
    exists dh. split; [done |]. split; [| done].
    rewrite index_insert_ne; [done | lia | lia].
  - intros j Hj. lia.
Defined.

(** ** The capture loop *)

Lemma sample_fold_closed (p : PinScript) (n : nat) :
  ∀ (a : nat) (l : Level) (ls : list Level) (ds : list Z) (w : World),
    ∃ (l' : Level) (w' : World),
      foldl (sampleStep p) (l, ls, ds, w) (seq a n)
      = (l',
         ls ++ take n (l :: ((λ i, (slot p i).2) <$> seq a n)),
         ds ++ ((λ i, (slot p i).1) <$> seq a n),
         w').
Proof.
  induction n as [| n IH]; intros a l ls ds w.
  - exists l, w. simpl. by rewrite !app_nil_r.
  - cbn [seq foldl]. unfold sampleStep at 2. cbv beta iota.
    destruct (slot p a) as [d lv] eqn:Hslot.
    destruct (IH (S a) lv (ls ++ [l]) (ds ++ [d]) (emit EvPinRead (advance d w)))
      as (l' & w' & ->).
    exists l', w'. cbn [fmap list_fmap seq take]. rewrite Hslot. cbn [fst snd].
    by rewrite <- !app_assoc.
Qed.

Lemma sample_closed (p : PinScript) (w : World) :
  (sample p w).1.1.2 = firstLevel p :: ((λ i, (slot p i).2) <$> seq 0 83)
  ∧ (sample p w).1.2 = (λ i, (slot p i).1) <$> seq 0 84.
Proof.
  unfold sample.
  destruct (sample_fold_closed p 84 0 (firstLevel p) [] [] w) as (l' & w' & ->).
  cbn [fst snd app]. split; reflexivity.
Qed.


(** ** A sensor played back *)

Lemma index_fmap_seq {A : Type} (f : nat → A) (n j : nat) :
  (j < n)%nat → index (f <$> seq 0 n) (Z.of_nat j) = Ret (f j).
Proof.
  intros Hj. by rewrite index_of_nat, list_lookup_fmap, lookup_seq_lt.
Qed.

Lemma index_cons_S {A : Type} (x : A) (l : list A) (j : nat) :
  index (x :: l) (Z.of_nat (S j)) = index l (Z.of_nat j).
Proof. by rewrite !index_of_nat. Qed.

Lemma even_4_2k (k : nat) : Nat.even (4 + 2 * k) = true.
Proof. by rewrite Nat.even_add_mul_2. Qed.

Lemma even_5_2k (k : nat) : Nat.even (5 + 2 * k) = false.
Proof. by rewrite Nat.even_add_mul_2. Qed.

(** The pulses that [sensor bits] plays decode to [bits]. *)
Lemma sensor_decodes (bits : list Z) (w : World) :
  length bits = 40%nat → Forall isBit bits →
  decodePulses (sample (sensor bits) w).1.1.2 (sample (sensor bits) w).1.2
  = Ret (Ok bits).
Proof.
  intros Hlen Hbits.
  destruct (sample_closed (sensor bits) w) as [-> ->].
  cbn [sensor firstLevel slot].
  set (levels := High :: ((λ i, (sensorSlot bits i).2) <$> seq 0 83)).
  set (durations := (λ i, (sensorSlot bits i).1) <$> seq 0 84).
  assert (He : findEndNumber levels = Ret (Ok 83)) by (vm_compute; reflexivity).
  rewrite (decodePulses_window _ _ _ He).
  apply decodeWindow_accepts. split; [done |]. intros k Hk.
  destruct (lookup_lt_is_Some_2 bits k) as [b Hb]; [lia |].
  assert (Hbit : isBit b) by (by apply (proj1 (Forall_lookup _ _) Hbits k)).
  exists (if decide (bits !! k = Some 1) then 70 * Microsecond else 26 * Microsecond),
         (50 * Microsecond).
  replace (83 - 79 + 2 * Z.of_nat k) with (Z.of_nat (S (3 + 2 * k))) by lia.
  replace (83 - 78 + 2 * Z.of_nat k) with (Z.of_nat (S (4 + 2 * k))) by lia.
  unfold levels. rewrite !index_cons_S, !index_fmap_seq by lia.
  unfold durations. rewrite !index_fmap_seq by lia.
  unfold sensorSlot. cbn [fst snd].
  change (S (S (3 + 2 * k))) with (5 + 2 * k)%nat.
  change (S (3 + 2 * k)) with (4 + 2 * k)%nat.
  change (S (4 + 2 * k)) with (5 + 2 * k)%nat.
  rewrite even_4_2k, even_5_2k.
  destruct (Nat.ltb_spec (4 + 2 * k) 4); [lia |].
  destruct (Nat.ltb_spec (5 + 2 * k) 4); [lia |].
  replace ((4 + 2 * k - 4) `div` 2)%nat with k
    by (replace (4 + 2 * k - 4)%nat with (k * 2)%nat by lia; by rewrite Nat.div_mul).
  rewrite Hb. unfold Microsecond.
  destruct Hbit as [-> | ->].
  - destruct (decide (Some 0 = Some 1)); [done |]. repeat split; done.
  - destruct (decide (Some 1 = Some 1)); [| done]. repeat split; done.
Qed.

(** ** readBits: what is left behind *)

Lemma highCheck_Err (levels : list Level) (durations : list Z) (i : Z) (e : Error) :
  highCheck levels durations i = Ret (Err e) → isCaptureError e = true.
Proof.
  unfold highCheck.
  destruct (index levels i) as [l |]; cbn [go_bind]; [| done].
  destruct (decide (l ≠ High)); [by intros [= <-] |].
  destruct (index durations i) as [d |]; cbn [go_bind]; [| done].
  destruct (d >? 90 * Microsecond); [by intros [= <-] | done].
Qed.

Lemma lowBody_Err (levels : list Level) (durations : list Z) (i : Z) (s : unit)
    (e : Error) :
  lowBody levels durations i s = Ret (Err e) → isCaptureError e = true.
Proof.
  unfold lowBody.
  destruct (index levels i) as [l |]; cbn [go_bind]; [| done].
  destruct (decide (l ≠ Low)); [by intros [= <-] |].
  destruct (index durations i) as [d |]; cbn [go_bind]; [| done].
  destruct (d >? 70 * Microsecond); [by intros [= <-] |].
  destruct (d <? 35 * Microsecond); [by intros [= <-] | done].
Qed.

Lemma lastLow_Err (levels : list Level) (n : nat) (e : Error) :
  lastLow levels n = Ret (Err e) → e = ErrLowNotFound.
Proof.
  induction n as [| n IH]; cbn [lastLow];
    destruct (index levels _) as [[] |]; cbn [go_bind]; try done;
    destruct (_ <? 80); try done; by intros [= <-].
Qed.

Lemma decodePulses_Err (levels : list Level) (durations : list Z) (e : Error) :
  decodePulses levels durations = Ret (Err e) → isCaptureError e = true.
Proof.
  unfold decodePulses, res_bind.
  destruct (findEndNumber levels) as [[en | e0] |] eqn:Hen; cbn [go_bind]; [| | done].
  - rewrite decodeWindow_collect. unfold res_bind.
    destruct (collect _ _) as [[bs | e1] |] eqn:Hc; cbn [go_bind]; [| | done].
    + clear Hc. destruct (forEach _ _ _) as [[[] | e2] |] eqn:Hf; cbn [go_bind].
      * clear Hf. discriminate.
      * intros [= ->]. apply forEach_is_Err in Hf as (i & s & _ & Hb).
        by apply lowBody_Err in Hb.
      * clear Hf. discriminate.
    + intros [= ->]. apply collect_is_Err in Hc as (i & _ & Hb).
      by apply highCheck_Err in Hb.
  - intros [= ->]. unfold findEndNumber in Hen.
    destruct (_ <? 0); [done |]. by apply lastLow_Err in Hen as ->.
Qed.

(** The effects of [readBits] with the pin, path by path. *)
Lemma readBits_pin_effects (dht : DHT) (w : World) :
  let p := pinScript w (captures w) in
  ∃ (r : Result (list Z)) (w' : World) (evs : list Event),
    readBits_pin dht w = Ret (r, setLastRead (now w) dht, w')
    ∧ trace w' = EvPinOut High :: evs
    ∧ captures w' = S (captures w)
    ∧ gcPercent w'
      = match outLowErr p, inErr p with
        | None, None => gcPercent w
        | _, _ => -1
        end
    ∧ (∀ e, r = Err e → isCaptureError e = true)
    ∧ (∀ e, outLowErr p = Some e → r = Err (ErrPinOutLow e))
    ∧ (∀ e, outLowErr p = None → inErr p = Some e → r = Err (ErrPinIn e))
    ∧ (∀ e, outLowErr p = None → inErr p = None → outHighErr p = Some e →
            r = Err (ErrPinOutHigh e)).
Proof.
  intros p. unfold readBits_pin. fold p.
  destruct (outLowErr p) as [e1 |].
  { eexists _, _, _. split; [done |]. cbn. repeat split; try done.
    - by intros e [= <-].
    - by intros e [= ->]. }
  destruct (inErr p) as [e2 |].
  { eexists _, _, _. split; [done |]. cbn. repeat split; try done.
    - by intros e [= <-].
    - by intros e _ [= ->]. }
  match goal with
  | |- context [sample p ?w0] =>
      destruct (sample_fold p 84 0 (firstLevel p) [] [] w0)
        as (l' & ls & ds & w1 & evs & Hfold & Hls & Hds & Htr & Hevs & Hgc
            & Hpin & Hcap & Hsel & Hnow);
      unfold sample; rewrite Hfold
  end.
  simpl in Hls, Hds, Hcap.
  destruct (decodePulses_total ls ds Hls Hds) as (r & Hr & Hbits).
  destruct (outHighErr p) as [e3 |].
  - eexists _, _, _. split; [done |]. cbn. rewrite Hcap.
    repeat split; try done.
    + by intros e [= <-].
    + by intros e _ _ [= ->].
  - rewrite Hr. cbn [go_bind].
    eexists _, _, _. split; [done |]. cbn. rewrite Hcap.
    repeat split; try done.
    intros e ->. by apply decodePulses_Err in Hr.
Qed.

(** X10. With the pin, [readBits] never panics, whatever the pin does: it
    returns an error or 40 bits, each 0 or 1. Its last effect is
    [Out(gpio.High)], on the error paths too, and it is one capture more. *)
Theorem readBits_pin_ends_high (dht : DHT) (w : World) :
  ∃ (r : Result (list Z)) (dht' : DHT) (w' : World) (evs : list Event),
    readBits NotWindows dht w = Ret (r, dht', w')
    ∧ (∀ bits, r = Ok bits → length bits = 40%nat ∧ Forall isBit bits)
    ∧ trace w' = EvPinOut High :: evs
    ∧ captures w' = S (captures w).
Proof.
  destruct (readBits_spec NotWindows dht w)
    as (r & w' & evs & Hread & _ & _ & Hbits & _).
  destruct (readBits_pin_effects dht w)
    as (r' & w'' & evs' & Hread' & Htr & Hcap & _).
  cbn [readBits] in Hread. rewrite Hread in Hread'. injection Hread' as <- <-.
  by eexists r, _, w', evs'.
Qed.

(** X11. The collector: [readBits] puts back the setting it found when the
    start signal went through, and leaves the collector switched off (-1) when
    it returns early, on an error of [Out(gpio.Low)] or of [In]. *)
Theorem readBits_pin_gcPercent (dht : DHT) (w : World) :
  ∃ (r : Result (list Z)) (dht' : DHT) (w' : World),
    readBits NotWindows dht w = Ret (r, dht', w')
    ∧ gcPercent w'
      = match outLowErr (pinScript w (captures w)),
              inErr (pinScript w (captures w)) with
        | None, None => gcPercent w
        | _, _ => -1
        end.
Proof.
  destruct (readBits_pin_effects dht w) as (r & w' & evs & Hread & _ & _ & Hgc & _).
  by eexists r, _, w'.
Qed.

(** ** Read without the pin *)

Lemma bitsToValues_zeros (dht : DHT) :
  bitsToValues dht (replicate 40 0)
  = Ret (mkValues 0 (if temperatureUnit dht =? Celsius then 0 else 32) None).
Proof.
  change (replicate 40 0) with (frame 0 0 0).
  rewrite bitsToValues_frame by lia.
  change (signExtend 0) with 0. change (dataSum 0 0) with 0.
  unfold valuesOf. cbn [orb Z.ltb Z.gtb Z.compare Z.eqb negb].
  destruct (String.eqb (sensorType dht) "dht11"); cbn [negb];
    destruct (temperatureUnit dht =? Celsius); f_equal.
Qed.

(** X12. The build without the pin: every [Read] succeeds, with humidity 0 and
    temperature 0 in Celsius or 32 in Fahrenheit, for both sensor types; it
    still sleeps and still writes [lastRead]. *)
Theorem Read_windows (dht : DHT) (w : World) :
  let start := now w + Z.max 0 (sleepTime dht w) in
  ∃ w' : World,
    Read Windows dht w
    = Ret (mkValues 0 (if temperatureUnit dht =? Celsius then 0 else 32) None,
           setLastRead start dht, w')
    ∧ trace w' = EvSetLastRead start :: EvSleep (sleepTime dht w) :: trace w
    ∧ now w' = start.
Proof.
  intros start. unfold Read. cbn [readBits readBits_windows go_bind].
  rewrite bitsToValues_zeros. cbn [go_bind temperatureUnit setLastRead].
  eexists. split; [done |]. done.
Qed.

(** ** Read: the values next to an error *)



(** ** The whole pipeline on a sensor played back *)

(** X9. A pin that plays 40 bits as pulses, a high pulse of 26 microseconds
    for 0 and of 70 for 1, each followed by a low pulse of 50: [readBits]
    returns these 40 bits, and [Read] returns what [bitsToValues] makes of
    them. *)
Theorem Read_sensor_round_trip (dht : DHT) (w : World) (bits : list Z) :
  pinScript w (captures w) = sensor bits →
  length bits = 40%nat → Forall isBit bits →
  (∃ w' : World,
     readBits NotWindows dht w = Ret (Ok bits, setLastRead (now w) dht, w'))
  ∧ (∃ (v : Values) (dht' : DHT) (w' : World),
       Read NotWindows dht w = Ret (v, dht', w')
       ∧ bitsToValues dht bits = Ret v).
Proof.
  intros Hpin Hlen Hbits.
  assert (Hrb : ∀ w0 : World,
            pinScript w0 (captures w0) = sensor bits →
            ∃ w' : World,
              readBits_pin dht w0 = Ret (Ok bits, setLastRead (now w0) dht, w')).
  { intros w0 Hp. unfold readBits_pin. rewrite Hp. cbn [sensor outLowErr inErr outHighErr].
    match goal with
    | |- context [sample ?p ?w1] =>
        pose proof (sensor_decodes bits w1 Hlen Hbits) as Hdec;
        change p with (sensor bits);
        destruct (sample (sensor bits) w1) as [[[l ls] ds] w2]
    end.
    cbn [fst snd] in Hdec. rewrite Hdec. cbn [go_bind]. by eexists. }
  split; [by apply Hrb |].
  unfold Read. cbn [readBits].
  destruct (Hrb (sleep (sleepTime dht w) w) Hpin) as [w' ->]. cbn [go_bind].
  destruct (bitsToValues_total dht bits Hlen Hbits) as [v Hv].
  exists v. eexists _, w'.
  change (bitsToValues (setLastRead (now (sleep (sleepTime dht w) w)) dht) bits)
    with (bitsToValues dht bits).
  rewrite Hv. done.
Qed.

Lemma frame_isBit (h t c : Z) : Forall isBit (frame h t c).
Proof. unfold frame. rewrite !Forall_app. repeat split; apply toBits_isBit. Qed.

Lemma Read_sensor_round_trip_witness :
  (∃ w' : World,
     readBits NotWindows (newHandle Celsius "" 0) (worldAt 0 (sensor exampleFrame))
     = Ret (Ok exampleFrame, setLastRead 0 (newHandle Celsius "" 0), w'))
  ∧ (∃ (v : Values) (dht' : DHT) (w' : World),
       Read NotWindows (newHandle Celsius "" 0) (worldAt 0 (sensor exampleFrame))
       = Ret (v, dht', w')
       ∧ bitsToValues (newHandle Celsius "" 0) exampleFrame = Ret v).
Proof.
  apply (Read_sensor_round_trip (newHandle Celsius "" 0)
           (worldAt 0 (sensor exampleFrame)) exampleFrame).
  - reflexivity.
  - vm_compute. reflexivity.
  - apply frame_isBit.
Defined.

(** ** ReadRetry: the captures it makes *)

Lemma Read_captures (dht : DHT) (w : World) :
  ∃ (v : Values) (dht' : DHT) (w' : World),
    Read NotWindows dht w = Ret (v, dht', w')
    ∧ captures w' = S (captures w)
    ∧ pinScript w' = pinScript w.
Proof.
  destruct (Read_spec NotWindows dht w) as (v & w' & evs & Hread & _ & _ & Hpin & _).
  exists v. eexists _, w'. split; [done |]. split; [| done].
  revert Hread. unfold Read. cbn [readBits].
  destruct (readBits_pin_effects dht (sleep (sleepTime dht w) w))
    as (r & w1 & evs1 & -> & _ & Hcap & _).
  cbn [go_bind].
  destruct r as [bits | e].
  - destruct (bitsToValues _ bits); cbn [go_bind]; [| done]. by intros [= _ <-].
  - by intros [= _ <-].
Qed.

Lemma ReadRetry_loop_captures (n : nat) :
  ∀ (last : Values) (dht : DHT) (w : World),
    ∃ (v : Values) (dht' : DHT) (w' : World),
      ReadRetry_loop NotWindows (S n) last dht w = Ret (v, dht', w')
      ∧ (captures w < captures w' ≤ captures w + S n)%nat
      ∧ (err v ≠ None → captures w' = (captures w + S n)%nat).
Proof.
  induction n as [| n IH]; intros last dht w;
    destruct (Read_captures dht w) as (v1 & d1 & w1 & Hread & Hcap & _).
  - exists v1, d1, w1. cbn [ReadRetry_loop]. rewrite Hread. cbn [go_bind].
    split; [by destruct (err v1) |]. split; lia.
  - destruct (err v1) as [e1 |] eqn:Herr.
    + destruct (IH v1 d1 w1) as (v & d' & w' & Hloop & Hrange & Hall).
      exists v, d', w'.
      split; [cbn [ReadRetry_loop] in *; rewrite Hread; cbn [go_bind]; by rewrite Herr |].
      split; [lia |]. intros He. rewrite (Hall He). lia.
    + exists v1, d1, w1.
      split; [cbn [ReadRetry_loop]; rewrite Hread; cbn [go_bind]; by rewrite Herr |].
      split; [lia |]. by rewrite Herr.
Qed.

(** X14. With the pin and [maxRetries >= 1], [ReadRetry] makes at least one
    capture and at most [maxRetries]; when it returns an error, it has made all
    [maxRetries] of them. *)
Theorem ReadRetry_captures (maxRetries : Z) (dht : DHT) (w : World) :
  1 ≤ maxRetries →
  ∃ (v : Values) (dht' : DHT) (w' : World),
    ReadRetry NotWindows maxRetries dht w = Ret (v, dht', w')
    ∧ Z.of_nat (captures w) < Z.of_nat (captures w')
      ≤ Z.of_nat (captures w) + maxRetries
    ∧ (err v ≠ None → Z.of_nat (captures w') = Z.of_nat (captures w) + maxRetries).
Proof.
  intros Hmax. unfold ReadRetry.
  destruct (Z.to_nat maxRetries) as [| n] eqn:Hn; [lia |].
  destruct (ReadRetry_loop_captures n zeroValues dht w)
    as (v & d' & w' & Hloop & Hrange & Hall).
  exists v, d', w'. split; [done |]. split; [lia |].
  intros He. rewrite (Hall He). lia.
Qed.

Lemma ReadRetry_captures_witness :
  ∃ (v : Values) (dht' : DHT) (w' : World),
    ReadRetry NotWindows 4 (newHandle Celsius "" 0) (worldAt 0 deadPin)
    = Ret (v, dht', w')
    ∧ Z.of_nat (captures (worldAt 0 deadPin)) < Z.of_nat (captures w')
      ≤ Z.of_nat (captures (worldAt 0 deadPin)) + 4
    ∧ (err v ≠ None →
       Z.of_nat (captures w') = Z.of_nat (captures (worldAt 0 deadPin)) + 4).
Proof.
  apply (ReadRetry_captures 4 (newHandle Celsius "" 0) (worldAt 0 deadPin)). lia.
Defined.

(** ** ReadBackground: stop never closed, and a pin that always fails *)

(** X15. While [stop] is never closed the loop does not end: no number of
    iterations reaches [break Loop], so [stopped] is never closed either. *)
Theorem ReadBackground_runs_until_stop
    (b : Build) (fuel : nat) (sleepDuration : Z) (dht : DHT) (w : World) (c : Caller) :
  ReadBackground b fuel sleepDuration None dht w c = None.
Proof.
  unfold ReadBackground.
  assert (ReadBackground_loop b fuel sleepDuration None dht w c = None) as ->; [| done].
  revert dht w c. induction fuel as [| fuel IH]; intros dht w c; [done |].
  cbn [ReadBackground_loop].
  destruct (Read_total b dht w) as (v & d1 & w1 & ->).
  destruct (err v); cbn [stopClosed selectAfterOrStop]; apply IH.
Qed.

Lemma Read_refused (dht : DHT) (w : World) :
  (∀ n, outLowErr (pinScript w n) ≠ None) →
  ∃ (v : Values) (dht' : DHT) (w' : World),
    Read NotWindows dht w = Ret (v, dht', w')
    ∧ err v ≠ None
    ∧ (∀ n, outLowErr (pinScript w' n) ≠ None).
Proof.
  intros Hdead.
  destruct (Read_captures dht w) as (v & d' & w' & Hread & _ & Hpin).
  exists v, d', w'. split; [done |]. split; [| by rewrite Hpin].
  revert Hread. unfold Read. cbn [readBits].
  destruct (readBits_pin_effects dht (sleep (sleepTime dht w) w))
    as (r & w1 & evs1 & -> & _ & _ & _ & _ & Hlow & _).
  cbn [go_bind].
  destruct (outLowErr (pinScript (sleep (sleepTime dht w) w)
                         (captures (sleep (sleepTime dht w) w)))) as [e |] eqn:He.
  - rewrite (Hlow e eq_refl). by intros [= <- _ _].
  - by destruct (Hdead (captures w)).
Qed.

(** X16. With a pin that refuses every start signal, the loop never writes to
    the caller: when it ends, the two cells hold what they held, [stop] is
    closed and [stopped] has been closed; it panics only when [stopped] was
    closed before. *)
Theorem ReadBackground_refused_pin
    (fuel : nat) (sleepDuration : Z) (stopAt : option Z) (dht : DHT) (w : World)
    (c : Caller) :
  (∀ n, outLowErr (pinScript w n) ≠ None) →
  match ReadBackground NotWindows fuel sleepDuration stopAt dht w c with
  | Some (Ret (_, w', c')) =>
      humidityCell c' = humidityCell c
      ∧ temperatureCell c' = temperatureCell c
      ∧ stoppedClosed c = false ∧ stoppedClosed c' = true
      ∧ stopClosed stopAt (now w') = true
  | Some Panic => stoppedClosed c = true
  | None => True
  end.
Proof.
  intros Hdead. unfold ReadBackground.
  assert (Hloop :
    match ReadBackground_loop NotWindows fuel sleepDuration stopAt dht w c with
    | Some (Ret (_, w', c')) => c' = c ∧ stopClosed stopAt (now w') = true
    | Some Panic => False
    | None => True
    end).
  { revert dht w Hdead. induction fuel as [| fuel IH]; intros dht w Hdead; [done |].
    cbn [ReadBackground_loop].
    destruct (Read_refused dht w Hdead) as (v & d1 & w1 & -> & Herr & Hdead1).
    destruct (err v) as [e |]; [| done].
    destruct (stopClosed stopAt (now w1)) eqn:Hstop; [done |].
    by apply IH. }
  destruct (ReadBackground_loop _ _ _ _ _ _ _) as [[[[d' w'] c'] |] |]; [| done | done].
  destruct Hloop as [-> Hstop].
  destruct (stoppedClosed c) eqn:Hc; [done |].
  cbn [humidityCell temperatureCell stoppedClosed]. done.
Qed.

Lemma ReadBackground_refused_pin_witness :
  match ReadBackground NotWindows 3 (20 * Second) (Some 1500000000)
          (newHandle Celsius "" 0) (worldAt 0 deadPin) (mkCaller 7 8 false) with
  | Some (Ret (_, w', c')) =>
      humidityCell c' = humidityCell (mkCaller 7 8 false)
      ∧ temperatureCell c' = temperatureCell (mkCaller 7 8 false)
      ∧ stoppedClosed (mkCaller 7 8 false) = false ∧ stoppedClosed c' = true
      ∧ stopClosed (Some 1500000000) (now w') = true
  | Some Panic => stoppedClosed (mkCaller 7 8 false) = true
  | None => True
  end.
Proof.
  apply (ReadBackground_refused_pin 3 (20 * Second) (Some 1500000000)
           (newHandle Celsius "" 0) (worldAt 0 deadPin) (mkCaller 7 8 false)).
  intros n. discriminate.
Defined.

(** ** The back-off *)

(** X17. For a count of failures [n >= 0] the interval starts at 2 seconds,
    grows by half a second with each failure up to the 56th, never shrinks and
    never passes 30 seconds. *)
Theorem sleepTimeOf_backoff (n : Z) :
  0 ≤ n →
  2 * Second ≤ sleepTimeOf n ≤ 30 * Second
  ∧ sleepTimeOf n ≤ sleepTimeOf (n + 1)
  ∧ (n < 56 → sleepTimeOf (n + 1) = sleepTimeOf n + 500 * Millisecond)
  ∧ (56 ≤ n → sleepTimeOf (n + 1) = sleepTimeOf n).
Proof.
  intros Hn. rewrite !sleepTimeOf_min by lia.
  unfold Second, Millisecond. lia.
Qed.

Lemma sleepTimeOf_backoff_witness :
  2 * Second ≤ sleepTimeOf 55 ≤ 30 * Second
  ∧ sleepTimeOf 55 ≤ sleepTimeOf (55 + 1)
  ∧ (55 < 56 → sleepTimeOf (55 + 1) = sleepTimeOf 55 + 500 * Millisecond)
  ∧ (56 ≤ 55 → sleepTimeOf (55 + 1) = sleepTimeOf 55).
Proof. apply (sleepTimeOf_backoff 55). lia. Defined.

(** ** NewDHT *)

Lemma lowerAscii_idem (a : Ascii.ascii) : lowerAscii (lowerAscii a) = lowerAscii a.
Proof. destruct a as [[] [] [] [] [] [] [] []]; reflexivity. Qed.

Lemma toLower_idem (s : string) : toLower (toLower s) = toLower s.
Proof. induction s as [| a s IH]; simpl; [done |]. by rewrite lowerAscii_idem, IH. Qed.

(** X18. The sensor type is read without regard to the case of its letters:
    [NewDHT] does the same with a sensor type and with its lower-case form, and
    the handle it makes has the sensor type "dht11" or the empty one. *)
Theorem NewDHT_sensorType (b : Build) (reg : Registry) (pinName : string)
    (u : TemperatureUnit) (s : string) (w : World) :
  NewDHT b reg pinName u (toLower s) w = NewDHT b reg pinName u s w
  ∧ ∀ (dht : DHT) (w' : World),
      NewDHT b reg pinName u s w = (inr dht, w') →
      sensorType dht = (if String.eqb (toLower s) "dht11" then "dht11" else "")%string
      ∧ temperatureUnit dht = u ∧ numErrors dht = 0.
Proof.
  split.
  - unfold NewDHT. by rewrite toLower_idem.
  - intros dht w'. unfold NewDHT.
    destruct b; [destruct (reg pinName) as [[e |] |] |]; intros [= <- _]; done.
Qed.

(** The pin "GPIO19" asked for a "Dht11" in Fahrenheit. *)
Lemma NewDHT_sensorType_witness :
  ∃ (dht : DHT) (w' : World),
    NewDHT NotWindows oneGoodPin "GPIO19" Fahrenheit "Dht11" (worldAt 0 deadPin)
    = (inr dht, w')
    ∧ sensorType dht = "dht11"%string
    ∧ temperatureUnit dht = Fahrenheit ∧ numErrors dht = 0.
Proof.
  eexists _, _. split; [reflexivity |].
  apply (proj2 (NewDHT_sensorType NotWindows oneGoodPin "GPIO19" Fahrenheit "Dht11"
                  (worldAt 0 deadPin)) _ _ eq_refl).
Defined.

(** X19. The first [Read] after [NewDHT]: its capture starts one second after
    the call of [NewDHT], or when [Read] is called if that is later; the pin
    has a second to warm up. *)
Theorem NewDHT_then_Read (b : Build) (reg : Registry) (pinName : string)
    (u : TemperatureUnit) (s : string) (w w0 w1 : World) (dht : DHT) :
  NewDHT b reg pinName u s w = (inr dht, w0) →
  now w ≤ now w1 < now w + 2 ^ 62 →
  ∃ (v : Values) (dht' : DHT) (w' : World),
    Read b dht w1 = Ret (v, dht', w')
    ∧ lastRead dht' = Z.max (now w1) (now w + Second).
Proof.
  intros Hnew Hnow.
  assert (Hdht : numErrors dht = 0 ∧ lastRead dht = now w - Second).
  { revert Hnew. unfold NewDHT.
    destruct b; [destruct (reg pinName) as [[e |] |] |]; intros [= <- _]; done. }
  destruct Hdht as [Hn Hl].
  destruct (Read_spec b dht w1) as (v & w' & evs & Hread & _).
  eexists v, _, w'. split; [done |]. cbn [lastRead setLastRead].
  rewrite sleepTime_elapsed.
  - rewrite Hn, Hl. unfold Second, Millisecond. lia.
  - lia.
  - rewrite Hl. unfold Second. change (2 ^ 63) with (2 * 2 ^ 62).
    assert (1000000000 < 2 ^ 62) by done. lia.
Qed.

Lemma NewDHT_then_Read_witness :
  ∃ (v : Values) (dht' : DHT) (w' : World),
    Read NotWindows (newHandle Fahrenheit "dht11" 5000000000)
      (worldAt 5200000000 deadPin) = Ret (v, dht', w')
    ∧ lastRead dht' = Z.max 5200000000 (5000000000 + Second).
Proof.
  apply (NewDHT_then_Read NotWindows oneGoodPin "GPIO19" Fahrenheit "DHT11"
           (worldAt 5000000000 deadPin)
           (emit (EvPinOut High) (worldAt 5000000000 deadPin))
           (worldAt 5200000000 deadPin)).
  - reflexivity.
  - vm_compute. split; congruence.
Defined.

(** ** ReadBackground: the period *)

(** X20. While [stop] stays open, a [Read] without an error is written to the
    caller's two cells and the next iteration starts [sleepDuration] after the
    start of this one, or at once when the read took longer. *)
Theorem ReadBackground_loop_period
    (b : Build) (fuel : nat) (sleepDuration : Z) (dht dht1 : DHT) (w w1 : World)
    (c : Caller) (v : Values) :
  Read b dht w = Ret (v, dht1, w1) → err v = None →
  0 ≤ now w1 - now w < 2 ^ 62 → - 2 ^ 62 < sleepDuration < 2 ^ 62 →
  ∃ w2 : World,
    ReadBackground_loop b (S fuel) sleepDuration None dht w c
    = ReadBackground_loop b fuel sleepDuration None dht1 w2
        (mkCaller (humidity v) (temperature v) (stoppedClosed c))
    ∧ now w2 = Z.max (now w1) (now w + sleepDuration)
    ∧ trace w2 = EvStore (humidity v) (temperature v) :: trace w1.
Proof.
  intros Hread Herr Hel Hsd.
  cbn [ReadBackground_loop]. rewrite Hread, Herr.
  cbn [selectAfterOrStop]. eexists. split; [done |].
  cbn [now advance emit trace]. split; [| done].
  unfold since. cbn [now emit].
  assert (H63 : 2 ^ 63 = 2 * 2 ^ 62) by done.
  assert (0 < 2 ^ 62) by done.
  rewrite Z.min_r by lia. rewrite (Z.max_r (- 2 ^ 63)) by lia.
  rewrite wrap64_id by lia. lia.
Qed.

Lemma ReadBackground_loop_period_witness :
  ∃ w2 : World,
    ReadBackground_loop Windows 1 (20 * Second) None
      (newHandle Celsius "" 0) (worldAt 0 deadPin) (mkCaller 7 8 false)
    = ReadBackground_loop Windows 0 (20 * Second) None
        (setLastRead 1000000000 (newHandle Celsius "" 0)) w2
        (mkCaller 0 0 (stoppedClosed (mkCaller 7 8 false)))
    ∧ now w2 = Z.max 1000000000 (0 + 20 * Second)
    ∧ trace w2 = EvStore 0 0 :: EvSetLastRead 1000000000 :: EvSleep 1000000000 :: [].
Proof.
  apply (ReadBackground_loop_period Windows 0 (20 * Second)
           (newHandle Celsius "" 0) (setLastRead 1000000000 (newHandle Celsius "" 0))
           (worldAt 0 deadPin)
           (emit (EvSetLastRead 1000000000) (sleep 1000000000 (worldAt 0 deadPin)))
           (mkCaller 7 8 false) (mkValues 0 0 None)).
  - vm_compute. reflexivity.
  - reflexivity.
  - vm_compute. split; congruence.
  - vm_compute. split; reflexivity.
Defined.

(** ** The checksum finds a flipped bit *)

Lemma accBits_shift (l : list Z) (a d : Z) :
  accBits l (a + d) = accBits l a + d * 2 ^ Z.of_nat (length l).
Proof.
  revert a d. induction l as [| y l IH]; intros a d.
  - cbn. lia.
  - change (accBits (y :: l) (a + d)) with (accBits l (2 * (a + d) + y)).
    change (accBits (y :: l) a) with (accBits l (2 * a + y)).
    replace (2 * (a + d) + y) with (2 * a + y + 2 * d) by lia.
    rewrite IH. cbn [length]. rewrite Nat2Z.inj_succ, Z.pow_succ_r by lia. lia.
Qed.

Lemma accBits_insert (l : list Z) :
  ∀ (m : nat) (a b x : Z),
    l !! m = Some b →
    accBits (<[m := x]> l) a
    = accBits l a + (x - b) * 2 ^ Z.of_nat (length l - 1 - m).
Proof.
  induction l as [| y l IH]; intros m a b x Hm; [done |].
  destruct m as [| m].
  - injection Hm as ->. cbn [insert list_insert].
    change (accBits (x :: l) a) with (accBits l (2 * a + x)).
    change (accBits (b :: l) a) with (accBits l (2 * a + b)).
    replace (2 * a + x) with (2 * a + b + (x - b)) by lia.
    rewrite accBits_shift. cbn [length]. do 3 f_equal. lia.
  - cbn [insert list_insert].
    change (accBits (y :: <[m:=x]> l) a) with (accBits (<[m:=x]> l) (2 * a + y)).
    change (accBits (y :: l) a) with (accBits l (2 * a + y)).
    rewrite (IH m _ b) by done. cbn [length]. do 3 f_equal. lia.
Qed.

(** One bit of a byte flipped: a byte again, 1 to 128 away. *)
Lemma toBits_flip (v : Z) (m : nat) (b : Z) :
  0 ≤ v < 256 → toBits 8 v !! m = Some b →
  ∃ v' : Z,
    0 ≤ v' < 256
    ∧ <[m := 1 - b]> (toBits 8 v) = toBits 8 v'
    ∧ (1 ≤ v' - v ≤ 128 ∨ 1 ≤ v - v' ≤ 128).
Proof.
  intros Hv Hm.
  assert (Hlt : (m < 8)%nat).
  { apply lookup_lt_Some in Hm. by rewrite length_toBits in Hm. }
  assert (Hb : isBit b)
    by (by apply (proj1 (Forall_lookup _ _) (toBits_isBit 8 v) m)).
  destruct (toBits_surj 8 (<[m := 1 - b]> (toBits 8 v))) as (v' & Hv' & Hl).
  { by rewrite length_insert, length_toBits. }
  { apply Forall_insert; [apply toBits_isBit |]. destruct Hb as [-> | ->]; [by right | by left]. }
  exists v'. change (2 ^ Z.of_nat 8) with 256 in Hv'. split; [done |]. split; [done |].
  pose proof (accBits_insert (toBits 8 v) m 0 b (1 - b) Hm) as Hacc.
  rewrite Hl, !accBits_toBits, length_toBits in Hacc by done.
  assert (Hpow : 1 ≤ 2 ^ Z.of_nat (8 - 1 - m) ≤ 128).
  { do 8 (destruct m as [| m]; [cbn; lia |]). lia. }
  destruct Hb as [-> | ->]; lia.
Qed.

Lemma bytesFrame_frame (v0 v1 v2 v3 v4 : Z) :
  0 ≤ v0 < 256 → 0 ≤ v1 < 256 → 0 ≤ v2 < 256 → 0 ≤ v3 < 256 →
  bytesFrame v0 v1 v2 v3 v4 = frame (256 * v0 + v1) (256 * v2 + v3) v4
  ∧ dataSum (256 * v0 + v1) (256 * v2 + v3) = (v0 + v1 + v2 + v3) `mod` 256.
Proof.
  intros H0 H1 H2 H3.
  assert (Hdm : ∀ a b, 0 ≤ b < 256 →
            (256 * a + b) `div` 256 = a ∧ (256 * a + b) `mod` 256 = b).
  { intros a b Hb. split.
    - symmetry. apply (Z.div_unique _ 256 a b); lia.
    - symmetry. apply (Z.mod_unique _ 256 a b); lia. }
  destruct (Hdm v0 v1 H1) as [E0 E1]. destruct (Hdm v2 v3 H3) as [E2 E3].
  split.
  - rewrite frame_bytes, E0, E1, E2, E3. done.
  - unfold dataSum. by rewrite E0, E1, E2, E3.
Qed.

Lemma valuesOf_checksum_err (dht : DHT) (h t c s : Z) :
  c ≠ s → err (valuesOf dht h t c s) ≠ None.
Proof.
  intros Hne. unfold valuesOf.
  destruct (Z.eqb_spec c s); [done |]. cbn [negb].
  repeat match goal with
         | |- context [if ?b then _ else _] => destruct b
         end; done.
Qed.

(** A bit of a frame of five bytes flipped: five bytes again, one of them 1
    to 128 away. *)
Lemma bytesFrame_flip (v0 v1 v2 v3 v4 : Z) (i : nat) (b : Z) :
  0 ≤ v0 < 256 → 0 ≤ v1 < 256 → 0 ≤ v2 < 256 → 0 ≤ v3 < 256 → 0 ≤ v4 < 256 →
  bytesFrame v0 v1 v2 v3 v4 !! i = Some b →
  ∃ w0 w1 w2 w3 w4 : Z,
    (0 ≤ w0 < 256 ∧ 0 ≤ w1 < 256 ∧ 0 ≤ w2 < 256 ∧ 0 ≤ w3 < 256 ∧ 0 ≤ w4 < 256)
    ∧ <[i := 1 - b]> (bytesFrame v0 v1 v2 v3 v4) = bytesFrame w0 w1 w2 w3 w4
    ∧ (let d := (w0 + w1 + w2 + w3 - w4) - (v0 + v1 + v2 + v3 - v4) in
       1 ≤ d ≤ 128 ∨ 1 ≤ - d ≤ 128).
Proof.
  intros H0 H1 H2 H3 H4. unfold bytesFrame.
  pose proof (length_toBits 8 v0) as L0. pose proof (length_toBits 8 v1) as L1.
  pose proof (length_toBits 8 v2) as L2. pose proof (length_toBits 8 v3) as L3.
  intros Hi.
  destruct (decide (i < 8)%nat) as [Hlt0 | Hge0].
  { rewrite lookup_app_l in Hi by lia.
    destruct (toBits_flip v0 i b H0 Hi) as (w & Hw & Hfl & Hd).
    exists w, v1, v2, v3, v4. split; [done |].
    rewrite insert_app_l, Hfl by lia. split; [done |]. cbv zeta. lia. }
  rewrite lookup_app_r in Hi by lia. rewrite insert_app_r_alt by lia. rewrite L0 in *.
  destruct (decide (i - 8 < 8)%nat) as [Hlt1 | Hge1].
  { rewrite lookup_app_l in Hi by lia.
    destruct (toBits_flip v1 _ b H1 Hi) as (w & Hw & Hfl & Hd).
    exists v0, w, v2, v3, v4. split; [done |].
    rewrite insert_app_l, Hfl by lia. split; [done |]. cbv zeta. lia. }
  rewrite lookup_app_r in Hi by lia. rewrite insert_app_r_alt by lia. rewrite L1 in *.
  destruct (decide (i - 8 - 8 < 8)%nat) as [Hlt2 | Hge2].
  { rewrite lookup_app_l in Hi by lia.
    destruct (toBits_flip v2 _ b H2 Hi) as (w & Hw & Hfl & Hd).
    exists v0, v1, w, v3, v4. split; [done |].
    rewrite insert_app_l, Hfl by lia. split; [done |]. cbv zeta. lia. }
  rewrite lookup_app_r in Hi by lia. rewrite insert_app_r_alt by lia. rewrite L2 in *.
  destruct (decide (i - 8 - 8 - 8 < 8)%nat) as [Hlt3 | Hge3].
  { rewrite lookup_app_l in Hi by lia.
    destruct (toBits_flip v3 _ b H3 Hi) as (w & Hw & Hfl & Hd).
    exists v0, v1, v2, w, v4. split; [done |].
    rewrite insert_app_l, Hfl by lia. split; [done |]. cbv zeta. lia. }
  rewrite lookup_app_r in Hi by lia. rewrite insert_app_r_alt by lia. rewrite L3 in *.
  destruct (toBits_flip v4 _ b H4 Hi) as (w & Hw & Hfl & Hd).
  exists v0, v1, v2, v3, w. split; [done |].
  rewrite Hfl. split; [done |]. cbv zeta. lia.
Qed.

(** X21. One flipped bit is always found: in a frame whose checksum byte is
    the sum of its four data bytes, flip any one of the 40 bits, and
    [bitsToValues] returns an error, a range error or "check sum fail". *)
Theorem bitsToValues_detects_flip (dht : DHT) (h t : Z) (i : nat) (b : Z) :
  0 ≤ h < 65536 → 0 ≤ t < 65536 →
  frame h t (dataSum h t) !! i = Some b →
  ∃ v : Values,
    bitsToValues dht (<[i := 1 - b]> (frame h t (dataSum h t))) = Ret v
    ∧ err v ≠ None.
Proof.
  intros Hh Ht Hi.
  destruct (byte_bounds h Hh) as [H0 H1]. destruct (byte_bounds t Ht) as [H2 H3].
  pose proof (dataSum_byte h t) as H4.
  rewrite frame_bytes in Hi |- *.
  change (toBits 8 (h `div` 256) ++ toBits 8 (h `mod` 256) ++ toBits 8 (t `div` 256)
          ++ toBits 8 (t `mod` 256) ++ toBits 8 (dataSum h t))
    with (bytesFrame (h `div` 256) (h `mod` 256) (t `div` 256) (t `mod` 256)
            (dataSum h t)) in *.
  destruct (bytesFrame_flip _ _ _ _ _ i b H0 H1 H2 H3 H4 Hi)
    as (w0 & w1 & w2 & w3 & w4 & (Hw0 & Hw1 & Hw2 & Hw3 & Hw4) & -> & Hd).
  destruct (bytesFrame_frame w0 w1 w2 w3 w4 Hw0 Hw1 Hw2 Hw3) as [-> Hsum].
  eexists. split; [apply bitsToValues_frame; lia |].
  apply valuesOf_checksum_err. rewrite Hsum.
  cbv zeta in Hd. unfold dataSum in Hd.
  set (s := h `div` 256 + h `mod` 256 + t `div` 256 + t `mod` 256) in *.
  set (s' := w0 + w1 + w2 + w3) in *.
  intros Heq.
  pose proof (Z.div_mod s 256 ltac:(lia)). pose proof (Z.div_mod s' 256 ltac:(lia)).
  pose proof (Z.mod_pos_bound s 256 ltac:(lia)).
  assert (s' - s' `mod` 256 = 256 * (s' `div` 256)) by lia.
  assert (s - s `mod` 256 = 256 * (s `div` 256)) by lia.
  rewrite Heq in *. lia.
Qed.

(** The example frame with its 18th bit flipped. *)
Lemma bitsToValues_detects_flip_witness :
  ∃ v : Values,
    bitsToValues (generic Celsius) (<[17%nat := 1 - 0]> (frame 652 251 (dataSum 652 251)))
    = Ret v
    ∧ err v ≠ None.
Proof.
  apply (bitsToValues_detects_flip (generic Celsius) 652 251 17 0); [lia | lia |].
  vm_compute. reflexivity.
Defined.

(** ** ReadBackground: when the loop ends *)

(** X22. The loop is left only once [stop] is closed: when [ReadBackground]
    returns, [stop] is closed at that time, [stopped] was open and is now
    closed, and closing it was the last effect; it panics only when [stopped]
    was closed before the call. *)
Theorem ReadBackground_ends_only_after_stop
    (b : Build) (fuel : nat) (sleepDuration : Z) (stopAt : option Z) (dht : DHT)
    (w : World) (c : Caller) :
  match ReadBackground b fuel sleepDuration stopAt dht w c with
  | Some (Ret (_, w', c')) =>
      stopClosed stopAt (now w') = true
      ∧ stoppedClosed c = false ∧ stoppedClosed c' = true
      ∧ ∃ evs, trace w' = EvCloseStopped :: evs
  | Some Panic => stoppedClosed c = true
  | None => True
  end.
Proof.
  unfold ReadBackground.
  assert (Hloop :
    match ReadBackground_loop b fuel sleepDuration stopAt dht w c with
    | Some (Ret (_, w', c')) =>
        stopClosed stopAt (now w') = true ∧ stoppedClosed c' = stoppedClosed c
    | Some Panic => False
    | None => True
    end).
  { revert dht w c. induction fuel as [| fuel IH]; intros dht w c; [done |].
    cbn [ReadBackground_loop].
    destruct (Read_total b dht w) as (v & d1 & w1 & ->).
    destruct (err v) as [e |].
    - destruct (stopClosed stopAt (now w1)) eqn:Hstop; [done |]. apply IH.
    - unfold selectAfterOrStop.
      set (w2 := emit (EvStore (humidity v) (temperature v)) w1).
      set (d := wrap64 (sleepDuration - since w2 (now w))).
      destruct stopAt as [s |].
      + destruct (Z.ltb_spec (Z.max (now w2) s) (now w2 + Z.max 0 d)).
        { cbn [stopClosed now advance stoppedClosed]. split; [| done].
          apply Z.leb_le. lia. }
        destruct (Z.ltb_spec (now w2 + Z.max 0 d) (Z.max (now w2) s)).
        { specialize (IH d1 (advance (now w2 + Z.max 0 d - now w2) w2)
                        (mkCaller (humidity v) (temperature v) (stoppedClosed c))).
          by destruct (ReadBackground_loop _ _ _ _ _ _ _) as [[[[? ?] ?] |] |]. }
        destruct (selectStop w2 (now w2 + Z.max 0 d)).
        { cbn [stopClosed now advance stoppedClosed]. split; [| done].
          apply Z.leb_le. lia. }
        specialize (IH d1 (advance (now w2 + Z.max 0 d - now w2) w2)
                      (mkCaller (humidity v) (temperature v) (stoppedClosed c))).
        by destruct (ReadBackground_loop _ _ _ _ _ _ _) as [[[[? ?] ?] |] |].
      + specialize (IH d1 (advance (now w2 + Z.max 0 d - now w2) w2)
                      (mkCaller (humidity v) (temperature v) (stoppedClosed c))).
        by destruct (ReadBackground_loop _ _ _ _ _ _ _) as [[[[? ?] ?] |] |]. }
  destruct (ReadBackground_loop _ _ _ _ _ _ _) as [[[[d' w'] c'] |] |]; [| done | done].
  destruct Hloop as [Hstop Hc]. rewrite Hc.
  destruct (stoppedClosed c); [done |].
  cbn [now emit stoppedClosed trace]. split; [done |]. split; [done |]. split; [done |].
  by eexists.
Qed.

(** What a [Read] leaves when no busy read of the pin takes a negative time:
    the capture has started two seconds or more after the one before, and not
    after the time [Read] returns. *)
Lemma Read_progress (b : Build) (dht : DHT) (w : World) :
  wellTimed w → 0 ≤ numErrors dht → lastRead dht ≤ now w →
  ∃ (v : Values) (dht' : DHT) (w' : World),
    Read b dht w = Ret (v, dht', w')
    ∧ numErrors dht' = numErrors dht
    ∧ lastRead dht + 2 * Second ≤ lastRead dht'
    ∧ lastRead dht' ≤ now w'
    ∧ pinScript w' = pinScript w
    ∧ selectStop w' = selectStop w.
Proof.
  intros Hwt Hn Hlast.
  assert (Hstart : lastRead dht + 2 * Second ≤ now w + Z.max 0 (sleepTime dht w)).
  { destruct (Z.lt_ge_cases (now w - lastRead dht) (2 ^ 63)) as [Hlt | Hge].
    - rewrite sleepTime_elapsed by lia. unfold Second, Millisecond. lia.
    - change (2 ^ 63) with 9223372036854775808 in Hge. unfold Second. lia. }
  unfold Read.
  destruct (readBits_spec b dht (sleep (sleepTime dht w) w))
    as (r & w' & evs & Hread & _ & _ & Hbits & Hpin & Hsel & Hnow).
  rewrite Hread. cbn [go_bind]. cbn in Hpin, Hsel, Hnow.
  specialize (Hnow Hwt).
  destruct r as [bits | e].
  - destruct (Hbits bits eq_refl) as [Hlen Hall].
    destruct (bitsToValues_total (setLastRead (now (sleep (sleepTime dht w) w)) dht)
                bits Hlen Hall) as [v Hv].
    rewrite Hv. cbn [go_bind]. eexists v, _, w'. split; [done |]. cbn. done.
  - eexists _, _, w'. split; [done |]. cbn. done.
Qed.

Lemma ReadBackground_loop_ends (b : Build) (sleepDuration s : Z) (n : nat) :
  ∀ (dht : DHT) (w : World) (c : Caller),
    wellTimed w → (∀ t, selectStop w t = true) →
    0 ≤ numErrors dht → lastRead dht ≤ now w →
    s ≤ lastRead dht + 2 * Second * (Z.of_nat n + 1) →
    ∃ (dht' : DHT) (w' : World) (c' : Caller),
      ReadBackground_loop b (S n) sleepDuration (Some s) dht w c
      = Some (Ret (dht', w', c'))
      ∧ stoppedClosed c' = stoppedClosed c
      ∧ s ≤ now w'.
Proof.
  induction n as [| n IH]; intros dht w c Hwt Hsel Hn Hlast Hs;
    destruct (Read_progress b dht w Hwt Hn Hlast)
      as (v & d1 & w1 & Hread & Hn1 & Hl1 & Hnow1 & Hpin1 & Hsel1);
    cbn [ReadBackground_loop]; rewrite Hread;
    unfold Second in *.
  - destruct (err v) as [e |].
    + cbn [stopClosed]. destruct (Z.leb_spec s (now w1)); [| lia].
      by exists d1, w1, c.
    + unfold selectAfterOrStop.
      set (w2 := emit (EvStore (humidity v) (temperature v)) w1).
      set (d := wrap64 (sleepDuration - since w2 (now w))).
      change (now w2) with (now w1).
      destruct (Z.ltb_spec (Z.max (now w1) s) (now w1 + Z.max 0 d)).
      { eexists _, _, _. split; [done |]. cbn. split; [done |]. lia. }
      destruct (Z.ltb_spec (now w1 + Z.max 0 d) (Z.max (now w1) s)); [lia |].
      change (selectStop w2) with (selectStop w1). rewrite Hsel1, Hsel.
      eexists _, _, _. split; [done |]. cbn. split; [done |]. lia.
  - assert (Hwt1 : wellTimed w1) by (unfold wellTimed; by rewrite Hpin1).
    assert (Hsel1' : ∀ t, selectStop w1 t = true) by (by rewrite Hsel1).
    destruct (err v) as [e |].
    + cbn [stopClosed]. destruct (Z.leb_spec s (now w1)).
      { by exists d1, w1, c. }
      apply IH; try done; lia.
    + unfold selectAfterOrStop.
      set (w2 := emit (EvStore (humidity v) (temperature v)) w1).
      set (d := wrap64 (sleepDuration - since w2 (now w))).
      change (now w2) with (now w1).
      destruct (Z.ltb_spec (Z.max (now w1) s) (now w1 + Z.max 0 d)).
      { eexists _, _, _. split; [done |]. cbn. split; [done |]. lia. }
      destruct (Z.ltb_spec (now w1 + Z.max 0 d) (Z.max (now w1) s)).
      { destruct (IH d1 (advance (now w1 + Z.max 0 d - now w1) w2)
                    (mkCaller (humidity v) (temperature v) (stoppedClosed c)))
          as (d' & w' & c' & Hloop & Hc & Hs');
          [done | done | lia | cbn; lia | lia |].
        by exists d', w', c'. }
      change (selectStop w2) with (selectStop w1). rewrite Hsel1'.
      eexists _, _, _. split; [done |]. cbn. split; [done |]. lia.
Qed.

(** X23. Closing [stop] ends the loop. When no busy read of the pin takes a
    negative time, the count of failures is not negative, the last read is not
    in the future and the select takes [<-stop] when both of its cases are
    ready, some number of iterations reaches [break Loop]: [ReadBackground]
    returns, after the time [s] at which [stop] is closed, with [stopped]
    closed. *)
Theorem ReadBackground_ends
    (b : Build) (sleepDuration s : Z) (dht : DHT) (w : World) (c : Caller) :
  wellTimed w → (∀ t, selectStop w t = true) →
  0 ≤ numErrors dht → lastRead dht ≤ now w → stoppedClosed c = false →
  ∃ (fuel : nat) (dht' : DHT) (w' : World) (c' : Caller),
    ReadBackground b fuel sleepDuration (Some s) dht w c = Some (Ret (dht', w', c'))
    ∧ stoppedClosed c' = true
    ∧ s ≤ now w'.
Proof.
  intros Hwt Hsel Hn Hlast Hc.
  destruct (ReadBackground_loop_ends b sleepDuration s (Z.to_nat (s - lastRead dht))
              dht w c Hwt Hsel Hn Hlast)
    as (d' & w' & c' & Hloop & Hc' & Hs).
  { unfold Second. lia. }
  exists (S (Z.to_nat (s - lastRead dht))). unfold ReadBackground.
  rewrite Hloop, Hc', Hc. eexists _, _, _. split; [done |]. done.
Qed.

(** The pin that refuses, the loop started at time 0, [stop] closed after five
    seconds. *)
Lemma ReadBackground_ends_witness :
  ∃ (fuel : nat) (dht' : DHT) (w' : World) (c' : Caller),
    ReadBackground NotWindows fuel (20 * Second) (Some (5 * Second))
      (newHandle Celsius "" 0) (worldAt 0 deadPin) (mkCaller 0 0 false)
    = Some (Ret (dht', w', c'))
    ∧ stoppedClosed c' = true
    ∧ 5 * Second ≤ now w'.
Proof.
  apply (ReadBackground_ends NotWindows (20 * Second) (5 * Second)
           (newHandle Celsius "" 0) (worldAt 0 deadPin) (mkCaller 0 0 false)).
  - intros n i. cbn. lia.
  - done.
  - cbn. lia.
  - cbn. unfold Second. lia.
  - done.
Defined.
